(** * server3.py: order book, crossing engine, replay and pacing

    A shallow embedding of [src/datafeed/server3.py] and the properties of
    its order-book core.

    Conventions of the embedding.
    - Python generators are modelled by the function that computes one
      [next()], with the state the generator keeps (its cursor in the
      recorded rows, the shared book dictionary) passed explicitly.
    - Python exceptions are modelled by the [result] type: [Raise e] is an
      exception that propagates, [Ok v] a normal return.  A Python function
      that returns [None] on some paths returns an [option] inside [Ok].
    - Book entries are tuples [(order, size, age)].  The book functions only
      compare, subtract, negate, take minima and multiply; on Python integers
      these operations are exact, and the entries are modelled over [Z].
    - [datetime] and [timedelta] values are modelled as [Z] (microseconds).
    - The random source ([random.random], [random.normalvariate]) and the
      wall clock ([datetime.now]) are inputs of the model: draws and clock
      readings are passed in.  The generators that draw random floats
      ([bwalk], [orders]) are modelled twice: over exact rationals [Q]
      (module [Gen], the arithmetic the code would do without rounding) and,
      for [bwalk], over binary64 floats (module [F64], the arithmetic the
      code does). *)

From Stdlib Require Import ZArith QArith Qround Qabs Lia Lqa.
From Stdlib Require Floats.
From stdpp Require Import base option list sorting strings gmap.

(** ** Python results *)

Module Py.

Inductive exn : Type :=
| IndexError
| TypeError
| StopIteration
| ZeroDivisionError.

Inductive result (A : Type) : Type :=
| Ok (a : A)
| Raise (e : exn).
Arguments Ok {A} a.
Arguments Raise {A} e.

#[global] Instance result_ret : MRet result := fun _ a => Ok a.
#[global] Instance result_bind : MBind result := fun _ _ f m =>
  match m with
  | Ok a => f a
  | Raise e => Raise e
  end.

End Py.
Export Py.

(** ** Test data generators in exact arithmetic (source lines 33-38 and
    46-53)

    The floats of the code are rationals here and no operation rounds; the
    rounding of [bwalk] is in module [F64]. *)

Module Gen.

Local Open Scope Q_scope.

(** Python's [%] on numbers: the result has the sign of the divisor, and a
    zero divisor raises. *)
Definition py_mod (x m : Q) : result Q :=
  if Qeq_bool m 0 then Raise ZeroDivisionError
  else Ok (x - m * inject_Z (Qfloor (x / m))).

(** [random.normalvariate(mu, sigma)] returns [mu + z * sigma] for a
    standard normal deviate [z]; the deviate is the injected draw. *)
Definition normalvariate (mu sigma : Q) (z : Q) : Q := mu + z * sigma.

(** One turn of the [while True] loop of [bwalk]: the new value of the
    accumulator [max] and the value yielded. *)
Definition bwalk_next (min rng std : Q) (max : Q) (z : Q) : result (Q * Q) :=
  let max := max + normalvariate 0 std z in
  m ← py_mod max (rng * 2);
  Ok (max, Qabs (m - rng) + min).

Fixpoint bwalk_from (min rng std : Q) (max : Q) (zs : list Q)
    : result (list Q) :=
  match zs with
  | [] => Ok []
  | z :: zs' =>
      '(max', v) ← bwalk_next min rng std max z;
      vs ← bwalk_from min rng std max' zs';
      Ok (v :: vs)
  end.

(** [bwalk(min, max, std)] driven by the draws [zs]: the values yielded by
    the first [length zs] calls of [next()]. *)
Definition bwalk (min max std : Q) (zs : list Q) : result (list Q) :=
  bwalk_from min (max - min) std max zs.

Definition OVERLAP : Q := 4.

(** [round(x, 2)]: round to the nearest hundredth, ties to even. *)
Definition round_half_even (x : Q) : Z :=
  let f := Qfloor x in
  let r := x - inject_Z f in
  if Qle_bool r (1 # 2) then
    if Qle_bool (1 # 2) r then (if Z.even f then f else f + 1)%Z else f
  else (f + 1)%Z.

Definition py_round2 (x : Q) : Q := inject_Z (round_half_even (x * 100)) / 100.

(** [int(x)]: truncation towards zero. *)
Definition py_int (x : Q) : Z :=
  if Qle_bool 0 x then Qfloor x else Qceiling x.

(** A market tick [(t, px, spd)]. *)
Definition tick : Type := Z * Q * Q.

(** The four draws made for one tick, in the order of the calls: two of
    [random()], then the deviates of the two [normalvariate] calls. *)
Record draws : Type := Draws {
  u_stock : Q;
  u_side : Q;
  z_order : Q;
  z_size : Q
}.

(** A generated order [(t, stock, side, order, size)]. *)
Record order_row : Type := OrderRow {
  o_t : Z;
  o_stock : string;
  o_side : string;
  o_order : Q;
  o_size : Z
}.

(** The pair [(side, d)] chosen from the second [random()] draw. *)
Definition side_of (u : Q) : string * Q :=
  if Qlt_le_dec (1 # 2) u then ("sell"%string, 2) else ("buy"%string, -2).

(** The body of the [for] loop of [orders]. *)
Definition orders_next (tk : tick) (dr : draws) : order_row :=
  let '(t, px, spd) := tk in
  let stock := if Qlt_le_dec (1 # 2) (u_stock dr) then "ABC"%string
               else "DEF"%string in
  let '(side, d) := side_of (u_side dr) in
  let order := py_round2 (normalvariate (px + spd / d) (spd / OVERLAP)
                            (z_order dr)) in
  let size := py_int (Qabs (normalvariate 0 100 (z_size dr))) in
  OrderRow t stock side order size.

(** [orders(hist)] on a finite prefix of the history. *)
Fixpoint orders (hist : list tick) (drs : list draws) : list order_row :=
  match hist, drs with
  | tk :: hist', dr :: drs' => orders_next tk dr :: orders hist' drs'
  | _, _ => []
  end.

End Gen.

(** ** Order book (source lines 59-100) *)

Module Book.

Local Open Scope Z_scope.

(** A resting entry [(order, size, age)]. *)
Definition entry : Type := Z * Z * Z.

Definition price (e : entry) : Z := e.1.1.
Definition esize (e : entry) : Z := e.1.2.
Definition eage (e : entry) : Z := e.2.

(** The body of the [for] loop of [add_book]: what the generator yields for
    the entries of the old book. *)
Fixpoint add_book_rest (book : list entry) : list entry :=
  match book with
  | [] => []
  | (o, s, age) :: book' =>
      if 0 <? age then (o, s, age - 1) :: add_book_rest book'
      else add_book_rest book'
  end.

(** The tail of a book after one ageing step, written with [filter] and
    [fmap]: entries of positive age stay, one unit older. *)
Definition aged (book : list entry) : list entry :=
  (λ e : entry, (price e, esize e, eage e - 1)) <$>
    filter (λ e : entry, 0 < eage e) book.

(** [add_book(book, order, size, _age=10)], consumed as a list. *)
Definition add_book (book : list entry) (order size : Z) (_age : Z) : list entry :=
  (order, size, _age) :: add_book_rest book.

Definition default_age : Z := 10.

(** [operator.ge] and [operator.le], and the table [ops]. *)
Definition operator_ge (a b : Z) : bool := b <=? a.
Definition operator_le (a b : Z) : bool := a <=? b.

Definition ops (side : string) : option (Z -> Z -> bool) :=
  if String.eqb side "buy" then Some operator_le
  else if String.eqb side "sell" then Some operator_ge
  else None.

(** [clear_order(order, size, book, op, _notional)].  [book[0]] raises
    [IndexError] on an empty book; falling off the end of the function
    returns [None]. *)
Fixpoint clear_order (order size : Z) (book : list entry)
    (op : Z -> Z -> bool) (_notional : Z) : result (option (Z * list entry)) :=
  match book with
  | [] => Raise IndexError
  | (top_order, top_size, age) :: tail =>
      if op order top_order then
        let _notional := _notional + Z.min size top_size * top_order in
        let sdiff := top_size - size in
        if 0 <? sdiff then
          Ok (Some (_notional, add_book tail top_order sdiff age))
        else if (0 <? length tail)%nat then
          clear_order order (- sdiff) tail op _notional
        else Ok None
      else Ok None
  end.

(** The [while buy and sell] loop of [clear_book] on two lists; every
    iteration that continues drops [buy[0]]. *)
Fixpoint clear_book_loop (buy sell : list entry)
    : result (list entry * list entry) :=
  match buy with
  | [] => Ok (buy, sell)
  | (order, size, _) :: buy' =>
      match sell with
      | [] => Ok (buy, sell)
      | _ :: _ =>
          new_book ← clear_order order size sell operator_ge 0;
          match new_book with
          | Some nb => clear_book_loop buy' nb.2
          | None => Ok (buy, sell)
          end
      end
  end.

(** [clear_book(buy=None, sell=None)]: a missing side is [None], and the
    loop is not entered when either side is falsy. *)
Definition clear_book (buy sell : option (list entry))
    : result (option (list entry) * option (list entry)) :=
  match buy, sell with
  | Some b, Some s =>
      '(b', s') ← clear_book_loop b s; Ok (Some b', Some s')
  | _, _ => Ok (buy, sell)
  end.

(** The pair of books is uncrossed: one side is empty (or absent), or the
    best bid is strictly below the best ask. *)
Definition uncrossed (buy sell : option (list entry)) : Prop :=
  match buy, sell with
  | Some (b :: _), Some (s :: _) => price b < price s
  | _, _ => True
  end.

(** [sorted(new, reverse=..., key=lambda x: x[0])]: a stable sort on the
    price; with [reverse] the order is descending and entries of equal
    price still keep their relative order. *)
Definition goes_before (reverse : bool) (x y : entry) : bool :=
  if reverse then price y <=? price x else price x <=? price y.

Fixpoint sorted_insert (reverse : bool) (x : entry) (l : list entry)
    : list entry :=
  match l with
  | [] => [x]
  | y :: l' =>
      if goes_before reverse x y then x :: l
      else y :: sorted_insert reverse x l'
  end.

Definition sorted (new : list entry) (reverse : bool) : list entry :=
  foldr (sorted_insert reverse) [] new.

(** The order a sorted book is in. *)
Definition in_order (reverse : bool) (x y : entry) : Prop :=
  if reverse then price y <= price x else price x <= price y.

(** A recorded row [(t, stock, side, order, size)]. *)
Record row : Type := Row {
  r_t : Z;
  r_stock : string;
  r_side : string;
  r_order : Z;
  r_size : Z
}.

(** A yielded snapshot [(t, bids, asks)]. *)
Definition snapshot : Type := Z * option (list entry) * option (list entry).

Definition snap_t (s : snapshot) : Z := s.1.1.
Definition snap_bids (s : snapshot) : option (list entry) := s.1.2.
Definition snap_asks (s : snapshot) : option (list entry) := s.2.

(** The keys a book dictionary may hold for [clear_book] to accept it, and
    the sides that [orders] records. *)
Definition valid_book (book : gmap string (list entry)) : Prop :=
  dom book ⊆ ({[ "buy"; "sell" ]} : gset string).

Definition valid_row (r : row) : Prop :=
  r_side r = "buy"%string ∨ r_side r = "sell"%string.

#[global] Instance valid_book_dec (book : gmap string (list entry)) :
  Decision (valid_book book).
Proof. unfold valid_book. apply _. Defined.

#[global] Instance valid_row_dec (r : row) : Decision (valid_row r).
Proof. unfold valid_row. apply _. Defined.

(** The call of [clear_book] with the dictionary [book] unpacked as keyword
    arguments: the keys are the parameter names, so a key other than
    ["buy"] and ["sell"] is a [TypeError]. *)
Definition clear_book_kwargs (book : gmap string (list entry))
    : result (option (list entry) * option (list entry)) :=
  if bool_decide (valid_book book) then
    clear_book (book !! "buy") (book !! "sell")
  else Raise TypeError.

(** The statements of the loop body of [order_book] before [clear_book]:
    the insertion into the shared dictionary [book]. *)
Definition insert_row (stock_name : string) (book : gmap string (list entry))
    (r : row) : gmap string (list entry) :=
  if String.eqb stock_name (r_stock r) then
    let new := add_book (default [] (book !! r_side r))
                 (r_order r) (r_size r) default_age in
    <[r_side r := sorted new (String.eqb (r_side r) "buy")]> book
  else book.

(** One [next()] of the generator [order_book(orders, book, stock_name)].
    [rows] is what is left of [orders]; the result carries the rows left
    and the dictionary as mutated.  A generator that raised is finished:
    it has no rows left. *)
Definition order_book_next (rows : list row)
    (book : gmap string (list entry)) (stock_name : string)
    : result snapshot * list row * gmap string (list entry) :=
  match rows with
  | [] => (Raise StopIteration, [], book)
  | r :: rows' =>
      let book := insert_row stock_name book r in
      match clear_book_kwargs book with
      | Ok (bids, asks) => (Ok (r_t r, bids, asks), rows', book)
      | Raise e => (Raise e, [], book)
      end
  end.

(** The generator drained: every snapshot it yields, the exception that
    ends it, and the dictionary it leaves. *)
Fixpoint order_book (rows : list row) (book : gmap string (list entry))
    (stock_name : string)
    : list snapshot * exn * gmap string (list entry) :=
  match rows with
  | [] => ([], StopIteration, book)
  | r :: rows' =>
      let book := insert_row stock_name book r in
      match clear_book_kwargs book with
      | Ok (bids, asks) =>
          let '(snaps, e, book') := order_book rows' book stock_name in
          ((r_t r, bids, asks) :: snaps, e, book')
      | Raise e => ([], e, book)
      end
  end.

End Book.

(** ** App (source lines 189-301) *)

Module Server.

Import Book.
Local Open Scope Z_scope.

Definition REALTIME : bool := true.

(** The fields of [App] and the number of [datetime.now()] readings made so
    far.  [_data_1] and [_data_2] are the rows each [order_book] generator
    has not consumed yet; the generators keep a reference to [_book_1] and
    [_book_2], which are never rebound. *)
Record app : Type := App {
  _book_1 : gmap string (list entry);
  _book_2 : gmap string (list entry);
  _data_1 : list row;
  _data_2 : list row;
  _rt_start : Z;
  _sim_start : option Z;
  reads : nat
}.

(** What [handle_query] reports: the timestamp and, per stock, the value of
    [bids and {'price': bids[0][0], 'size': bids[0][1]}]. *)
Inductive top : Type :=
| TopNone
| TopEmpty
| TopOf (price size : Z).

Definition top_of (book : option (list entry)) : top :=
  match book with
  | None => TopNone
  | Some [] => TopEmpty
  | Some (e :: _) => TopOf (price e) (esize e)
  end.

Record response : Type := Response {
  timestamp : Z;
  top_bid_1 : top;
  top_ask_1 : top;
  top_bid_2 : top;
  top_ask_2 : top
}.

(** The books hold no key but ["buy"] and ["sell"], and the rows the
    generators have left carry one of the two sides. *)
Definition app_valid (a : app) : Prop :=
  valid_book (_book_1 a) ∧ valid_book (_book_2 a)
  ∧ Forall valid_row (_data_1 a) ∧ Forall valid_row (_data_2 a).

Section WithEnvironment.

(** The wall clock: [clock k] is what the [k]-th call of [datetime.now()]
    returns.  [csv] is the content of the recorded source, as [read_csv]
    yields it. *)
Variable clock : nat -> Z.
Variable csv : list row.

(** [next(self._data_1)] and [next(self._data_2)]. *)
Definition next_data_1 (a : app) : result snapshot * app :=
  let '(r, rows, book) := order_book_next (_data_1 a) (_book_1 a) "ABC" in
  (r, App book (_book_2 a) rows (_data_2 a) (_rt_start a) (_sim_start a)
        (reads a)).

Definition next_data_2 (a : app) : result snapshot * app :=
  let '(r, rows, book) := order_book_next (_data_2 a) (_book_2 a) "DEF" in
  (r, App (_book_1 a) book (_data_1 a) rows (_rt_start a) (_sim_start a)
        (reads a)).

(** The test [t > self._sim_start + (datetime.now() - self._rt_start)]:
    the clock is read, then adding to a [_sim_start] that is still [None]
    raises. *)
Definition ahead_of_clock (sim_start : option Z) (rt_start : Z) (k : nat)
    (t : Z) : result bool :=
  match sim_start with
  | None => Raise TypeError
  | Some s => Ok (s + (clock k - rt_start) <? t)
  end.

(** [next()] of a fresh [_current_book] generator over the generator
    [order_book(..., book, stock_name)] with [rows] left.  The property
    builds a new generator at every access, so the [while] loop never runs
    past its first [yield]. *)
Fixpoint current_book (stock_name : string) (sim_start : option Z)
    (rt_start : Z) (rows : list row) (book : gmap string (list entry))
    (k : nat)
    : result snapshot * list row * gmap string (list entry) * nat :=
  match rows with
  | [] => (Raise StopIteration, [], book, k)
  | r :: rows' =>
      match order_book_next rows book stock_name with
      | (Raise e, rest, book') => (Raise e, rest, book', k)
      | (Ok s, _, book') =>
          if REALTIME then
            match ahead_of_clock sim_start rt_start k (snap_t s) with
            | Raise e => (Raise e, rows', book', S k)
            | Ok true => (Ok s, rows', book', S k)
            | Ok false =>
                current_book stock_name sim_start rt_start rows' book' (S k)
            end
          else (Ok s, rows', book', k)
      end
  end.

(** [next(self._current_book_1)] and [next(self._current_book_2)]. *)
Definition next_current_book_1 (a : app) : result snapshot * app :=
  let '(r, rows, book, k) :=
    current_book "ABC" (_sim_start a) (_rt_start a) (_data_1 a) (_book_1 a)
      (reads a) in
  (r, App book (_book_2 a) rows (_data_2 a) (_rt_start a) (_sim_start a) k).

Definition next_current_book_2 (a : app) : result snapshot * app :=
  let '(r, rows, book, k) :=
    current_book "DEF" (_sim_start a) (_rt_start a) (_data_2 a) (_book_2 a)
      (reads a) in
  (r, App (_book_1 a) book (_data_1 a) rows (_rt_start a) (_sim_start a) k).

(** [read_10_first_lines], with the number of turns left. *)
Fixpoint read_first_lines (n : nat) (a : app) : result () * app :=
  match n with
  | O => (Ok (), a)
  | S n' =>
      match next_data_1 a with
      | (Raise e, a) => (Raise e, a)
      | (Ok _, a) =>
          match next_data_2 a with
          | (Raise e, a) => (Raise e, a)
          | (Ok _, a) => read_first_lines n' a
          end
      end
  end.

Definition read_10_first_lines (a : app) : result () * app :=
  read_first_lines 10 a.

(** [initialize_data_feeds]: every exception raised in the [try] block is
    caught and printed. *)
Definition initialize_data_feeds (a : app) : app :=
  let a := App (_book_1 a) (_book_2 a) csv csv (_rt_start a) (_sim_start a)
             (reads a) in
  match next_data_1 a with
  | (Raise _, a) => a
  | (Ok s, a) =>
      let a := App (_book_1 a) (_book_2 a) (_data_1 a) (_data_2 a)
                 (_rt_start a) (Some (snap_t s)) (reads a) in
      (read_10_first_lines a).2
  end.

(** [App.__init__]. *)
Definition init : app :=
  initialize_data_feeds (App ∅ ∅ [] [] (clock 0) None 1).

(** The two pulls of [handle_query] that sit in the [try] block, and again
    in the handler. *)
Definition pull_both (a : app) : result (snapshot * snapshot) * app :=
  match next_current_book_1 a with
  | (Raise e, a) => (Raise e, a)
  | (Ok s1, a) =>
      match next_current_book_2 a with
      | (Raise e, a) => (Raise e, a)
      | (Ok s2, a) => (Ok (s1, s2), a)
      end
  end.

Definition respond (s1 s2 : snapshot) : response :=
  Response (Z.max (snap_t s1) (snap_t s2))
    (top_of (snap_bids s1)) (top_of (snap_asks s1))
    (top_of (snap_bids s2)) (top_of (snap_asks s2)).

(** The rest of [handle_query] once both snapshots are pulled. *)
Definition answer (r : result (snapshot * snapshot))
    : result (snapshot * snapshot * response) :=
  s ← r; Ok (s.1, s.2, respond s.1 s.2).

(** [handle_query]: the snapshots pulled and the response built from them.
    The correlation id [x] is echoed in the response and is left out. *)
Definition handle_query (a : app)
    : result (snapshot * snapshot * response) * app :=
  let '(r, a) :=
    match pull_both a with
    | (Raise StopIteration, a) => pull_both (initialize_data_feeds a)
    | ra => ra
    end in
  (answer r, a).

End WithEnvironment.

#[global] Instance app_valid_dec (a : app) : Decision (app_valid a).
Proof. unfold app_valid. apply _. Defined.

(** A recorded source of twelve rows and a clock that stands still, for
    the scenarios below. *)
Definition sample_csv : list row :=
  [Row 1 "ABC" "sell" 105 10; Row 2 "DEF" "buy" 80 5;
   Row 3 "ABC" "buy" 100 10; Row 4 "DEF" "sell" 85 5;
   Row 5 "ABC" "sell" 104 3; Row 6 "DEF" "buy" 81 2;
   Row 7 "ABC" "buy" 101 4; Row 8 "DEF" "sell" 84 6;
   Row 9 "ABC" "buy" 102 1; Row 10 "DEF" "buy" 82 7;
   Row 11 "ABC" "sell" 103 2; Row 12 "DEF" "sell" 83 9].

Definition still_clock : nat -> Z := λ _, 0.

(** The application after start-up and one query on [sample_csv]: both
    generators have been read to the end of the source or close to it. *)
Definition drained_app : app :=
  (handle_query still_clock sample_csv (init still_clock sample_csv)).2.

End Server.

(** ** Market conditions and the recorded file (source lines 17-24, 40-44
    and 106-113) *)

Module Market.

Import Gen.
Local Open Scope Q_scope.

(** The walk parameters [(min, max, std)]. *)
Definition SPD : Q * Q * Q := (2, 6, 1 # 10).
Definition PX : Q * Q * Q := (60, 150, 1).
Definition FREQ : Q * Q * Q := (12, 36, 50).

(** [timedelta(hours=h)] in microseconds: the fraction of a microsecond is
    rounded to the nearest, ties to even.  Timestamps are not bounded in
    the model; a [datetime] cannot pass the year 9999. *)
Definition timedelta_hours (h : Q) : Z := round_half_even (h * 3600000000).

(** [SIM_LENGTH = timedelta(days=365 * 5)], in microseconds. *)
Definition SIM_LENGTH : Z := 365 * 5 * 86400000000.

(** The loop of [market] over the values zipped from the three walks. *)
Fixpoint market_ticks (t0 : Z) (walks : list (Q * Q * Q)) : list tick :=
  match walks with
  | [] => []
  | (hours, px, spd) :: walks' =>
      (t0, px, spd) :: market_ticks (t0 + timedelta_hours (Qabs hours))%Z walks'
  end.

Definition zip3 (l1 l2 l3 : list Q) : list (Q * Q * Q) := zip (zip l1 l2) l3.

(** [market(t0)] driven by one triple of draws per tick, for the walks of
    the frequency, the price and the spread. *)
Definition market (t0 : Z) (zs : list (Q * Q * Q)) : result (list tick) :=
  hours ← bwalk FREQ.1.1 FREQ.1.2 FREQ.2 (zs.*1.*1);
  pxs ← bwalk PX.1.1 PX.1.2 PX.2 (zs.*1.*2);
  spds ← bwalk SPD.1.1 SPD.1.2 SPD.2 (zs.*2);
  Ok (market_ticks t0 (zip3 hours pxs spds)).

(** The loop of [generate_csv] over a prefix of [orders(market())]: the rows
    written, and whether the [break] was reached within the prefix.
    [market_open] is [MARKET_OPEN]. *)
Fixpoint generate_csv (market_open : Z) (os : list order_row)
    : list order_row * bool :=
  match os with
  | [] => ([], false)
  | o :: os' =>
      if (market_open + SIM_LENGTH <? o_t o)%Z then ([], true)
      else let '(rows, broke) := generate_csv market_open os' in
           (o :: rows, broke)
  end.

End Market.

(** ** Query parameters (source lines 141-146) *)

Module Http.

Import Stdlib.Strings.Ascii.

(** [s.split(sep)] for a separator of one character. *)
Fixpoint split (sep : Ascii.ascii) (s : string) : list string :=
  match s with
  | EmptyString => [EmptyString]
  | String c s' =>
      if Ascii.eqb c sep then EmptyString :: split sep s'
      else match split sep s' with
           | h :: t => String c h :: t
           | [] => [String c EmptyString]
           end
  end.

(** [dict(items)] for a sequence of lists: every item must have two
    elements, and a later item replaces an earlier one with the same key. *)
Fixpoint dict_of (items : list (list string)) (d : gmap string string)
    : option (gmap string string) :=
  match items with
  | [] => Some d
  | [k; v] :: items' => dict_of items' (<[k := v]> d)
  | _ :: _ => None
  end.

(** What [read_params] does: it returns a dictionary or [None], or [dict]
    raises [ValueError]. *)
Inductive outcome : Type :=
| Returned (params : option (gmap string string))
| ValueError.

Definition read_params (path : string) : outcome :=
  match split "?"%char path with
  | _ :: query :: _ =>
      match dict_of (split "="%char <$> split "&"%char query) ∅ with
      | Some d => Returned (Some d)
      | None => ValueError
      end
  | _ => Returned None
  end.

(** The character [c] does not occur in [s]. *)
Fixpoint free_of (c : Ascii.ascii) (s : string) : Prop :=
  match s with
  | EmptyString => True
  | String c' s' => c' ≠ c ∧ free_of c s'
  end.

(** A query string [k1=v1&k2=v2&...]. *)
Definition query_string (params : list (string * string)) : string :=
  String.concat "&" ((λ kv, kv.1 +:+ String "="%char kv.2) <$> params).

(** A key or a value that can be written in a query string as it is. *)
Definition plain (s : string) : Prop :=
  free_of "?"%char s ∧ free_of "&"%char s ∧ free_of "="%char s.

End Http.

(** ** The bounded walk in binary64 (source lines 33-38) *)

Module F64.

Import Stdlib.Floats.PrimFloat Stdlib.Floats.SpecFloat Stdlib.Floats.FloatOps.

(** C's [fmod]: the exact remainder of [x] by [d], with the sign of [x].
    Both numbers are brought to the smaller of their two exponents, where
    they are integers. *)
Definition fmod (x d : float) : float :=
  match Prim2SF x, Prim2SF d with
  | S754_finite sx mx ex, S754_finite _ md ed =>
      let e0 := Z.min ex ed in
      let X := (Z.pos mx * 2 ^ (ex - e0))%Z in
      let D := (Z.pos md * 2 ^ (ed - e0))%Z in
      match (X mod D)%Z with
      | Z.pos r => SF2Prim (S754_finite sx r e0)
      | _ => SF2Prim (S754_zero sx)
      end
  | S754_zero _, S754_finite _ _ _ => x
  | S754_zero _, S754_infinity _ => x
  | S754_finite _ _ _, S754_infinity _ => x
  | _, _ => nan
  end.

(** Python's [%] on floats: a zero divisor raises; otherwise the result of
    [fmod] is given the sign of the divisor, by adding the divisor when the
    signs differ and by the divisor's signed zero when the remainder
    is 0. *)
Definition py_mod (vx wx : float) : result float :=
  if (wx =? 0)%float then Raise ZeroDivisionError
  else
    let r := fmod vx wx in
    if (r =? 0)%float then Ok (if get_sign wx then neg_zero else zero)
    else if xorb (wx <? 0)%float (r <? 0)%float then Ok (r + wx)%float
    else Ok r.

(** One turn of the [while True] loop of [bwalk].  [draw] is the float that
    [normalvariate(0, std)] returns. *)
Definition bwalk_next (min rng : float) (max : float) (draw : float)
    : result (float * float) :=
  let max := (max + draw)%float in
  m ← py_mod max (rng * 2)%float;
  Ok (max, (abs (m - rng) + min)%float).

Fixpoint bwalk_from (min rng : float) (max : float) (draws : list float)
    : result (list float) :=
  match draws with
  | [] => Ok []
  | draw :: draws' =>
      '(max', v) ← bwalk_next min rng max draw;
      vs ← bwalk_from min rng max' draws';
      Ok (v :: vs)
  end.

(** [bwalk(min, max, std)] driven by the values [draws] that the calls of
    [normalvariate(0, std)] return: the values yielded by the first
    [length draws] calls of [next()]. *)
Definition bwalk (min max std : float) (draws : list float)
    : result (list float) :=
  bwalk_from min (max - min)%float max draws.


End F64.

(** * Properties *)

(** ** The crossing engine *)

Module BookFacts.

Import Book.
Local Open Scope Z_scope.

Lemma add_book_rest_aged (book : list entry) :
  add_book_rest book = aged book.
Proof.
  unfold aged.
  induction book as [|[[o s] age] book IH]; [done|].
  cbn [add_book_rest]. rewrite filter_cons. cbn [eage snd].
  destruct (Z.ltb_spec 0 age) as [Hpos|Hneg].
  - rewrite decide_True by done. rewrite fmap_cons, IH. done.
  - rewrite decide_False by lia. done.
Qed.

(** Ages never start below zero, and then the entries dropped are those
    whose age was 0. *)
Lemma aged_nonneg (book : list entry) :
  Forall (λ e : entry, 0 <= eage e) book →
  aged book
    = (λ e : entry, (price e, esize e, eage e - 1)) <$>
        filter (λ e : entry, eage e ≠ 0) book.
Proof.
  unfold aged. intros Hall. f_equal.
  induction Hall as [|e book He Hall IH]; [done|].
  rewrite !filter_cons, IH.
  destruct (decide (0 < eage e)), (decide (eage e ≠ 0)); done || lia.
Qed.

(** An insertion is the new entry in front of the aged book. *)
Lemma add_book_aged (book : list entry) (order size _age : Z) :
  add_book book order size _age = (order, size, _age) :: aged book.
Proof. unfold add_book. by rewrite add_book_rest_aged. Qed.

(** [sorted] rearranges its argument and puts it in the order asked for:
    prices descending with [reverse], ascending without. *)
Lemma sorted_insert_perm (reverse : bool) (x : entry) (l : list entry) :
  sorted_insert reverse x l ≡ₚ x :: l.
Proof.
  induction l as [|y l IH]; cbn; [done|].
  destruct (goes_before reverse x y); [done|].
  rewrite IH. apply Permutation_swap.
Qed.

Lemma sorted_perm (new : list entry) (reverse : bool) :
  sorted new reverse ≡ₚ new.
Proof.
  unfold sorted. induction new as [|x new IH]; cbn; [done|].
  by rewrite sorted_insert_perm, IH.
Qed.

Lemma sorted_insert_in_order (reverse : bool) (x : entry) (l : list entry) :
  Sorted (in_order reverse) l → Sorted (in_order reverse) (sorted_insert reverse x l).
Proof.
  induction 1 as [|y l Hl IH Hhd]; cbn.
  { repeat constructor. }
  unfold goes_before.
  destruct reverse.
  - destruct (Z.leb_spec (price y) (price x)).
    + repeat constructor; done.
    + constructor; [exact IH|].
      destruct Hhd as [|z l Hz]; cbn.
      * constructor. unfold in_order. lia.
      * unfold goes_before. destruct (Z.leb_spec (price z) (price x));
          constructor; unfold in_order in *; lia.
  - destruct (Z.leb_spec (price x) (price y)).
    + repeat constructor; done.
    + constructor; [exact IH|].
      destruct Hhd as [|z l Hz]; cbn.
      * constructor. unfold in_order. lia.
      * unfold goes_before. destruct (Z.leb_spec (price x) (price z));
          constructor; unfold in_order in *; lia.
Qed.

Lemma sorted_in_order (new : list entry) (reverse : bool) :
  Sorted (in_order reverse) (sorted new reverse).
Proof.
  unfold sorted. induction new as [|x new IH]; cbn; [constructor|].
  by apply sorted_insert_in_order.
Qed.

(** Entries of equal price keep their order, also with [reverse]. *)
Example sorted_is_stable :
  sorted [(5, 1, 1); (7, 1, 2); (5, 1, 3); (7, 1, 4)] true
    = [(7, 1, 2); (7, 1, 4); (5, 1, 1); (5, 1, 3)]
  ∧ sorted [(5, 1, 1); (7, 1, 2); (5, 1, 3); (7, 1, 4)] false
    = [(5, 1, 1); (5, 1, 3); (7, 1, 2); (7, 1, 4)].
Proof. split; reflexivity. Qed.

(** On a book that is not empty [clear_order] does not raise. *)
Lemma clear_order_returns (order size : Z) (e : entry) (book : list entry)
    (op : Z -> Z -> bool) (n : Z) :
  ∃ r, clear_order order size (e :: book) op n = Ok r.
Proof.
  revert size e n.
  induction book as [|e' book IH]; intros size [[to ts] age] n; cbn.
  - destruct (op order to); [|eauto]. destruct (0 <? ts - size); eauto.
  - destruct (op order to); [|eauto]. destruct (0 <? ts - size); [eauto|].
    apply IH.
Qed.

(** A successful [clear_order] returns a book that is not empty: the
    partially filled level stays at the top. *)
Lemma clear_order_some_nonempty (order size : Z) (book : list entry)
    (op : Z -> Z -> bool) (n n' : Z) (book' : list entry) :
  clear_order order size book op n = Ok (Some (n', book')) → book' ≠ [].
Proof.
  revert size n.
  induction book as [|[[to ts] age] book IH]; intros size n; cbn; [done|].
  destruct (op order to); [|done].
  destruct (0 <? ts - size).
  - intros [= <- <-]. done.
  - destruct book as [|e book]; [done|]. apply IH.
Qed.

(** [clear_book] never raises. *)
Lemma clear_book_loop_returns (buy sell : list entry) :
  ∃ p, clear_book_loop buy sell = Ok p.
Proof.
  revert sell.
  induction buy as [|[[o s] a] buy IH]; intros sell; cbn; [eauto|].
  destruct sell as [|e sell]; [eauto|].
  destruct (clear_order_returns o s e sell operator_ge 0) as [r ->].
  cbn. destruct r as [nb|]; eauto.
Qed.

Lemma clear_book_returns (buy sell : option (list entry)) :
  ∃ p, clear_book buy sell = Ok p.
Proof.
  destruct buy as [b|], sell as [s|]; cbn; eauto.
  destruct (clear_book_loop_returns b s) as [[b' s'] ->]. cbn. eauto.
Qed.

(** C8.  When the incoming price crosses the top entry, the top's size is
    at most the incoming size and the book has no further entry,
    [clear_order] returns [None]; this covers an incoming size equal to the
    depth available. *)
Theorem clear_order_no_depth_fails (order size top_order top_size age : Z)
    (op : Z -> Z -> bool) (_notional : Z) :
  op order top_order = true →
  top_size <= size →
  clear_order order size [(top_order, top_size, age)] op _notional = Ok None.
Proof.
  intros Hop Hle. cbn. rewrite Hop.
  destruct (Z.ltb_spec 0 (top_size - size)); [lia|done].
Qed.

Lemma clear_order_no_depth_fails_witness :
  clear_order 100 20 [(101, 20, 10)] operator_le 0 = Ok None.
Proof. apply clear_order_no_depth_fails; [reflexivity | lia]. Defined.

(** C10.  A call of [clear_order] that crosses the top entry and finds its
    size strictly greater than the incoming size returns the old top with
    its size reduced and its age unchanged, followed by the old tail aged:
    every entry one unit older, the entries whose age was not positive
    dropped.  This is the book an insertion of the remainder with the
    top's age produces. *)
Theorem clear_order_partial_fill_ages_tail
    (order size top_order top_size age : Z) (tail : list entry)
    (op : Z -> Z -> bool) (_notional : Z) :
  op order top_order = true →
  size < top_size →
  clear_order order size ((top_order, top_size, age) :: tail) op _notional
    = Ok (Some (_notional + size * top_order,
                (top_order, top_size - size, age) :: aged tail))
  ∧ add_book tail top_order (top_size - size) age
    = (top_order, top_size - size, age) :: aged tail.
Proof.
  intros Hop Hlt. split; [|apply add_book_aged].
  cbn [clear_order]. rewrite Hop.
  destruct (Z.ltb_spec 0 (top_size - size)); [|lia].
  rewrite Z.min_l by lia. by rewrite add_book_aged.
Qed.

Lemma clear_order_partial_fill_ages_tail_witness :
  clear_order 100 30 [(101, 50, 10); (100, 7, 1); (99, 4, 0)] operator_le 0
    = Ok (Some (0 + 30 * 101, (101, 50 - 30, 10) :: aged [(100, 7, 1); (99, 4, 0)]))
  ∧ add_book [(100, 7, 1); (99, 4, 0)] 101 (50 - 30) 10
    = (101, 50 - 30, 10) :: aged [(100, 7, 1); (99, 4, 0)].
Proof.
  apply clear_order_partial_fill_ages_tail; [reflexivity | lia].
Defined.

(** When the loop of [clear_book] stops with both books non-empty, it
    stopped because [clear_order] on the best bid returned [None]. *)
Lemma clear_book_loop_stops (buy sell : list entry) (b s : entry)
    (buy' sell' : list entry) :
  clear_book_loop buy sell = Ok (b :: buy', s :: sell') →
  clear_order (price b) (esize b) (s :: sell') operator_ge 0 = Ok None.
Proof.
  revert sell.
  induction buy as [|[[o sz] a] buy IH]; intros sell; cbn [clear_book_loop].
  - intros [=].
  - destruct sell as [|e sell]; [intros [=]|].
    destruct (clear_order o sz (e :: sell) operator_ge 0) as [[nb|]|err] eqn:Hco;
      cbn.
    + apply IH.
    + intros [= <- <- <- <-]. exact Hco.
    + intros [=].
Qed.

(** C2.  [clear_book] can return a crossed pair: the best bid 100 for 10
    meets the only ask 99 for 5, [clear_order] finds too little depth and
    returns [None], and the loop stops with both books as they were, the
    best bid above the best ask. *)
Theorem clear_book_returns_crossed :
  clear_book (Some [(100, 10, 10)]) (Some [(99, 5, 10)])
    = Ok (Some [(100, 10, 10)], Some [(99, 5, 10)])
  ∧ ¬ uncrossed (Some [(100, 10, 10)]) (Some [(99, 5, 10)]).
Proof. split; [reflexivity|]. cbn. lia. Qed.

(** C4.  For the bid book [[(101,50,10)]] and an incoming sell order of
    price 100 and size 30, [clear_order] with the comparator of a sell
    against bids returns the notional [30 * 101] and the bid book
    [[(101,20,10)]]: the remainder keeps the age 10.  The comparator is
    [operator.le], the mirror of the [operator.ge] that [clear_book] uses
    for a bid against the asks; the table [ops] lists it under the side of
    the book, ["buy"]. *)
Theorem clear_order_partial_fill_scenario :
  ops "buy" = Some operator_le
  ∧ clear_order 100 30 [(101, 50, 10)] operator_le 0
      = Ok (Some (30 * 101, [(101, 20, 10)])).
Proof. split; reflexivity. Qed.

(** C5, as stated: whatever the comparator, [clear_order] does not return
    an emptied book for the order (100, 20), and on the empty book it does
    not return [None]: it raises. *)
Lemma clear_order_full_consumption_fails :
  (∀ (op : Z → Z → bool) (n : Z),
     clear_order 100 20 [(101, 20, 10)] op 0 ≠ Ok (Some (n, [])))
  ∧ (∀ op : Z → Z → bool, clear_order 100 5 [] op 0 ≠ Ok None).
Proof.
  split.
  - intros op n. cbn. by destruct (op 100 101).
  - intros op. cbn. discriminate.
Qed.

(** C5, amended.  On the bid book [[(101,20,10)]] the order (100, 20)
    makes [clear_order] return [None] whatever the comparator: no emptied
    book is returned.  On an empty book [clear_order] raises [IndexError];
    [clear_book] does not call it there: with an empty side it returns
    both books as they are. *)
Theorem clear_order_full_consumption_scenario :
  (∀ op : Z → Z → bool, clear_order 100 20 [(101, 20, 10)] op 0 = Ok None)
  ∧ (∀ order size (op : Z → Z → bool) n,
       clear_order order size [] op n = Raise IndexError)
  ∧ (∀ buy, clear_book buy (Some []) = Ok (buy, Some []))
  ∧ (∀ sell, clear_book (Some []) sell = Ok (Some [], sell)).
Proof.
  repeat split.
  - intros op. cbn. by destruct (op 100 101).
  - intros [[|[[o s] a] buy]|]; reflexivity.
  - intros [sell|]; reflexivity.
Qed.

(** *** The replay generator *)

Lemma insert_row_valid (stock_name : string) (book : gmap string (list entry))
    (r : row) :
  valid_book book → valid_row r → valid_book (insert_row stock_name book r).
Proof.
  unfold valid_book, valid_row, insert_row. intros Hb Hr.
  destruct (String.eqb stock_name (r_stock r)); [|done].
  rewrite dom_insert_L. intros x [Hx|Hx]%elem_of_union; [|by apply Hb].
  apply elem_of_singleton in Hx as ->. apply elem_of_union.
  destruct Hr as [-> | ->]; [left|right]; by apply elem_of_singleton.
Qed.

Lemma clear_book_kwargs_valid (book : gmap string (list entry)) :
  valid_book book →
  ∃ p, clear_book_kwargs book = Ok p
       ∧ clear_book (book !! "buy") (book !! "sell") = Ok p.
Proof.
  intros Hb. unfold clear_book_kwargs.
  rewrite bool_decide_eq_true_2 by exact Hb.
  destruct (clear_book_returns (book !! "buy") (book !! "sell")) as [p Hp].
  eauto.
Qed.

(** The drained generator is the iteration of [order_book_next]. *)
Lemma order_book_unfold_next (rows : list row)
    (book : gmap string (list entry)) (stock_name : string) :
  order_book rows book stock_name
    = match order_book_next rows book stock_name with
      | (Ok s, rows', book') =>
          let '(snaps, e, book'') := order_book rows' book' stock_name in
          (s :: snaps, e, book'')
      | (Raise e, _, book') => ([], e, book')
      end.
Proof.
  destruct rows as [|r rows]; [done|]. cbn [order_book order_book_next].
  by destruct (clear_book_kwargs (insert_row stock_name book r)) as [[bids asks]|e].
Qed.

(** C1, as stated: after the second event the dictionary into which the
    third event will be inserted still holds the bid of 10 at 100 and the
    full ask of 20 at 99, while [clear_book] returned no bid and an ask of
    10: the books returned by [clear_book] are not the ones stored. *)
Lemma order_book_keeps_matched_quantity :
  ∃ s1 rows1 book1 s2 rows2 book2,
    order_book_next
      [Row 1 "ABC" "sell" 99 20; Row 2 "ABC" "buy" 100 10;
       Row 3 "ABC" "buy" 100 15] ∅ "ABC" = (Ok s1, rows1, book1)
    ∧ order_book_next rows1 book1 "ABC" = (Ok s2, rows2, book2)
    ∧ snap_bids s2 = Some [] ∧ snap_asks s2 = Some [(99, 10, 10)]
    ∧ book2 !! "buy" = Some [(100, 10, 10)]
    ∧ book2 !! "sell" = Some [(99, 20, 10)]
    ∧ ¬ (book2 !! "buy" = snap_bids s2 ∧ book2 !! "sell" = snap_asks s2).
Proof.
  do 6 eexists. split; [vm_compute; reflexivity|].
  split; [vm_compute; reflexivity|].
  split; [reflexivity|]. split; [reflexivity|].
  split; [vm_compute; reflexivity|]. split; [vm_compute; reflexivity|].
  intros [H _]. vm_compute in H. discriminate H.
Qed.

(** C1, amended.  [order_book] folds the insertions alone through the
    stored dictionary: on rows whose side is ["buy"] or ["sell"] the
    generator yields one snapshot per row and ends by exhaustion; the
    dictionary after the rows is the fold of [insert_row], and the [k]-th
    snapshot is [clear_book] applied to the fold of the first [k+1]
    insertions.  What [clear_book] returns is never stored. *)
Theorem order_book_folds_insertions (rows : list row)
    (book : gmap string (list entry)) (stock_name : string) :
  valid_book book →
  Forall valid_row rows →
  ∃ snaps,
    order_book rows book stock_name
      = (snaps, StopIteration, foldl (insert_row stock_name) book rows)
    ∧ length snaps = length rows
    ∧ ∀ k s, snaps !! k = Some s →
        ∃ r, rows !! k = Some r ∧ snap_t s = r_t r
             ∧ let stored :=
                 foldl (insert_row stock_name) book (take (S k) rows) in
               clear_book (stored !! "buy") (stored !! "sell")
                 = Ok (snap_bids s, snap_asks s).
Proof.
  intros Hb Hrows. revert book Hb.
  induction Hrows as [|r rows Hr Hrows IH]; intros book Hb.
  - exists []. cbn. repeat split. intros k s Hk. by rewrite lookup_nil in Hk.
  - pose proof (insert_row_valid stock_name book r Hb Hr) as Hb1.
    destruct (clear_book_kwargs_valid _ Hb1) as ([bids asks] & Hkw & Hcb).
    destruct (IH _ Hb1) as (snaps & Hrun & Hlen & Hsnaps).
    exists ((r_t r, bids, asks) :: snaps).
    cbn [order_book foldl]. rewrite Hkw, Hrun. cbn [length].
    repeat split; [by rewrite Hlen|].
    intros [|k] s Hk; cbn in Hk.
    + injection Hk as <-. exists r. repeat split. cbn. exact Hcb.
    + destruct (Hsnaps k s Hk) as (r' & Hr' & Ht & Hc).
      exists r'. repeat split; [done..|]. exact Hc.
Qed.

Lemma order_book_folds_insertions_witness :
  let rows := [Row 1 "ABC" "sell" 99 20; Row 2 "ABC" "buy" 100 10] in
  ∃ snaps,
    order_book rows ∅ "ABC"
      = (snaps, StopIteration, foldl (insert_row "ABC") ∅ rows)
    ∧ length snaps = length rows
    ∧ ∀ k s, snaps !! k = Some s →
        ∃ r, rows !! k = Some r ∧ snap_t s = r_t r
             ∧ let stored := foldl (insert_row "ABC") ∅ (take (S k) rows) in
               clear_book (stored !! "buy") (stored !! "sell")
                 = Ok (snap_bids s, snap_asks s).
Proof.
  apply (order_book_folds_insertions
           [Row 1 "ABC" "sell" 99 20; Row 2 "ABC" "buy" 100 10] ∅ "ABC").
  - unfold valid_book. rewrite dom_empty_L. apply empty_subseteq.
  - apply Forall_cons. split; [right; reflexivity|].
    apply Forall_cons. split; [left; reflexivity|]. apply Forall_nil_2.
Defined.

End BookFacts.

(** ** The generators *)

Module GenFacts.

Import Gen.
Local Open Scope Q_scope.

(** For a positive divisor [py_mod] returns, and the result lies in
    [0, m). *)
Lemma py_mod_pos (x m : Q) :
  0 < m → ∃ r, py_mod x m = Ok r ∧ 0 <= r ∧ r < m.
Proof.
  intros Hm. unfold py_mod.
  destruct (Qeq_bool m 0) eqn:Hz.
  { apply Qeq_bool_eq in Hz. rewrite Hz in Hm. inversion Hm. }
  eexists. split; [reflexivity|].
  assert (Hne : ~ m == 0) by (intros E; rewrite E in Hm; inversion Hm).
  pose proof (Qfloor_le (x / m)) as Hlo.
  pose proof (Qlt_floor (x / m)) as Hhi.
  rewrite inject_Z_plus in Hhi.
  apply (Qmult_le_l _ _ m Hm) in Hlo.
  apply (Qmult_lt_l _ _ m Hm) in Hhi.
  rewrite (Qmult_div_r x m Hne) in Hlo, Hhi.
  set (f := inject_Z (Qfloor (x / m))) in *.
  change (inject_Z 1) with 1 in Hhi.
  clear Hz Hne. clearbody f. split; nra.
Qed.

(** One turn of the walk yields a value between [min] and [min + rng]. *)
Lemma bwalk_next_bounded (min rng std acc z : Q) :
  0 < rng →
  ∃ acc' v, bwalk_next min rng std acc z = Ok (acc', v)
            ∧ min <= v ∧ v <= min + rng.
Proof.
  intros Hrng. unfold bwalk_next.
  destruct (py_mod_pos (acc + normalvariate 0 std z) (rng * 2))
    as (m & -> & Hlo & Hhi); [lra|].
  cbv [mbind result_bind]. do 2 eexists. split; [reflexivity|].
  pose proof (Qabs_nonneg (m - rng)) as Hnn.
  assert (Hle : Qabs (m - rng) <= rng) by (apply Qabs_Qle_condition; lra).
  split; lra.
Qed.

Lemma bwalk_from_bounded (min rng std : Q) (zs : list Q) (acc : Q) :
  0 < rng →
  ∃ vs, bwalk_from min rng std acc zs = Ok vs
        ∧ length vs = length zs
        ∧ Forall (λ v, min <= v ∧ v <= min + rng) vs.
Proof.
  intros Hrng. revert acc.
  induction zs as [|z zs IH]; intros acc.
  - exists []. repeat split. constructor.
  - destruct (bwalk_next_bounded min rng std acc z Hrng)
      as (acc' & v & Hnext & Hlo & Hhi).
    destruct (IH acc') as (vs & Hvs & Hlen & Hall).
    exists (v :: vs). cbn [bwalk_from]. rewrite Hnext.
    cbv [mbind result_bind]. rewrite Hvs.
    repeat split; [cbn; by rewrite Hlen|]. constructor; [done|exact Hall].
Qed.

(** In exact arithmetic, for [min < max] and any sequence of draws,
    [bwalk] yields one value per draw and every value lies in
    [[min, max]]. *)
Theorem bwalk_bounded (min max std : Q) (zs : list Q) :
  min < max →
  ∃ vs, bwalk min max std zs = Ok vs
        ∧ length vs = length zs
        ∧ Forall (λ v, min <= v ∧ v <= max) vs.
Proof.
  intros Hlt. unfold bwalk.
  destruct (bwalk_from_bounded min (max - min) std zs max) as (vs & -> & Hlen & Hall);
    [lra|].
  exists vs. repeat split; [done|].
  eapply Forall_impl; [exact Hall|]. cbn. intros v [Hlo Hhi]. split; lra.
Qed.

Lemma bwalk_bounded_witness :
  ∃ vs, bwalk 60 150 1 [200; -(731 # 2); 3 # 7] = Ok vs
        ∧ length vs = length [200; -(731 # 2); 3 # 7]
        ∧ Forall (λ v, 60 <= v ∧ v <= 150) vs.
Proof. apply (bwalk_bounded 60 150 1). reflexivity. Defined.

(** [round_half_even] and [py_round2] do not depend on the representation
    of the rational. *)
#[global] Instance round_half_even_comp : Proper (Qeq ==> eq) round_half_even.
Proof.
  intros x y Hxy. unfold round_half_even.
  rewrite (Qfloor_comp x y Hxy).
  assert (Hr : x - inject_Z (Qfloor y) == y - inject_Z (Qfloor y))
    by (rewrite Hxy; reflexivity).
  by rewrite !(Qleb_comp _ _ Hr _ _ (Qeq_refl _)),
             !(Qleb_comp _ _ (Qeq_refl _) _ _ Hr).
Qed.

#[global] Instance py_round2_comp : Proper (Qeq ==> eq) py_round2.
Proof.
  intros x y Hxy. unfold py_round2.
  assert (H : x * 100 == y * 100) by (rewrite Hxy; reflexivity).
  by rewrite (round_half_even_comp _ _ H).
Qed.

(** The side decides the divisor: 2 for a sell, -2 for a buy. *)
Lemma side_of_cases (u : Q) :
  side_of u = ("sell"%string, 2) ∨ side_of u = ("buy"%string, -2).
Proof. unfold side_of. destruct (Qlt_le_dec (1 # 2) u); auto. Qed.

(** With a zero deviate the limit price is [round(price + spread/d, 2)]. *)
Lemma orders_next_zero_deviate (t : Z) (px spd : Q) (dr : draws) :
  z_order dr == 0 →
  o_order (orders_next (t, px, spd) dr)
    = py_round2 (px + spd / (side_of (u_side dr)).2).
Proof.
  intros Hz. unfold orders_next.
  destruct (side_of (u_side dr)) as [side d]. cbn [o_order snd].
  apply py_round2_comp. unfold normalvariate. rewrite Hz. ring.
Qed.

(** C9, as stated: for the tick (0, 100, 4), a sell and the deviate 1 the
    limit price is 103, not [round(100 + 4/2, 2)] = 102. *)
Lemma orders_limit_price_not_deterministic :
  ¬ (∀ (t : Z) (px spd : Q) (dr : draws),
       o_order (orders_next (t, px, spd) dr)
         == py_round2 (px + spd / (side_of (u_side dr)).2)).
Proof.
  intros H. specialize (H 0%Z 100 4 (Draws 1 1 1 0)).
  vm_compute in H. discriminate H.
Qed.

(** C9, amended.  The order emitted for a tick carries the tick's
    timestamp; its side is a sell with [d = 2] or a buy with [d = -2]; its
    limit price is [round(x, 2)] for the draw [x] of a normal variable of
    mean [price + spread/d] and deviation [spread/OVERLAP]; its size is the
    floor of the absolute value of a draw of Normal(0, 100). *)
Theorem orders_next_limit_and_size (t : Z) (px spd : Q) (dr : draws) :
  let o := orders_next (t, px, spd) dr in
  let d := (side_of (u_side dr)).2 in
  o_t o = t
  ∧ ((o_side o = "sell"%string ∧ d = 2) ∨ (o_side o = "buy"%string ∧ d = -2))
  ∧ o_order o
      = py_round2 (normalvariate (px + spd / d) (spd / OVERLAP) (z_order dr))
  ∧ o_size o = Qfloor (Qabs (normalvariate 0 100 (z_size dr)))
  ∧ (0 <= o_size o)%Z.
Proof.
  cbv zeta. unfold orders_next.
  destruct (side_of_cases (u_side dr)) as [-> | ->]; cbn [o_t o_side o_order o_size snd].
  all: assert (Hint : py_int (Qabs (normalvariate 0 100 (z_size dr)))
                      = Qfloor (Qabs (normalvariate 0 100 (z_size dr))))
         by (unfold py_int;
             by rewrite (proj2 (Qle_bool_iff 0 _) (Qabs_nonneg _))).
  all: rewrite Hint; repeat split; auto.
  all: change 0%Z with (Qfloor 0); apply Qfloor_resp_le, Qabs_nonneg.
Qed.

End GenFacts.

(** ** The walk in binary64 *)

Module F64Facts.

Import Stdlib.Floats.PrimFloat.


End F64Facts.

(** ** Pacing and rebuild *)

Module ServerFacts.

Import Book Server BookFacts.
Local Open Scope Z_scope.

Section Pacing.

Variable clock : nat -> Z.

(** A snapshot yielded by [order_book] carries the timestamp of the row it
    was computed for, and the generator moves to the next row. *)
Lemma order_book_next_ok_inv (r : row) (rows : list row)
    (book : gmap string (list entry)) (stock_name : string) (s : snapshot)
    (rows' : list row) (book' : gmap string (list entry)) :
  order_book_next (r :: rows) book stock_name = (Ok s, rows', book') →
  snap_t s = r_t r ∧ rows' = rows ∧ book' = insert_row stock_name book r.
Proof.
  cbn [order_book_next].
  destruct (clear_book_kwargs (insert_row stock_name book r)) as [[bids asks]|e];
    intros [= <- <- <-]; done.
Qed.

(** What a pull that returns has done: it drained the rows [skipped], whose
    timestamps the clock had caught up with, and stopped at the first row
    whose timestamp was still ahead of the clock. *)
Lemma current_book_ok_inv (stock_name : string) (sim_start : option Z)
    (rt_start : Z) (rows : list row) (book : gmap string (list entry))
    (k : nat) (s : snapshot) (rows' : list row)
    (book' : gmap string (list entry)) (k' : nat) :
  current_book clock stock_name sim_start rt_start rows book k
    = (Ok s, rows', book', k') →
  ∃ sim skipped r,
    sim_start = Some sim
    ∧ rows = skipped ++ r :: rows'
    ∧ k' = (k + length skipped + 1)%nat
    ∧ snap_t s = r_t r
    ∧ sim + (clock (k + length skipped)%nat - rt_start) < r_t r
    ∧ ∀ i r', skipped !! i = Some r' →
        r_t r' <= sim + (clock (k + i)%nat - rt_start).
Proof.
  revert book k.
  induction rows as [|r rows IH]; intros book k; cbn [current_book].
  { intros [=]. }
  destruct (order_book_next (r :: rows) book stock_name)
    as [[[s0|e] rest] book1] eqn:Hnext; [|intros [=]].
  apply order_book_next_ok_inv in Hnext as (Ht & -> & ->).
  unfold REALTIME, ahead_of_clock.
  destruct sim_start as [sim|]; [|intros [=]].
  destruct (Z.ltb_spec (sim + (clock k - rt_start)) (snap_t s0)) as [Hlt|Hge].
  - intros [= <- <- <- <-]. exists sim, [], r.
    cbn [length List.app]. rewrite !Nat.add_0_r.
    repeat split; [lia|done|lia|]. intros i r' Hi. by rewrite lookup_nil in Hi.
  - intros Hrec. apply IH in Hrec
      as (sim' & skipped & r1 & [= <-] & -> & -> & Hs & Hahead & Hskipped).
    exists sim, (r :: skipped), r1. cbn [length List.app].
    repeat split; [lia|done| |].
    + replace (k + S (length skipped))%nat with (S k + length skipped)%nat
        by lia. exact Hahead.
    + intros [|i] r' Hi; cbn in Hi.
      * injection Hi as <-. rewrite Nat.add_0_r. lia.
      * replace (k + S i)%nat with (S k + i)%nat by lia. eauto.
Qed.

(** C3, as stated: with the clock standing 3 units after the start, the
    pull drains the snapshots of timestamps 1 and 2 and returns the one of
    timestamp 5, which is later than [sim_start + 3]. *)
Lemma current_book_returns_snapshot_ahead :
  ∃ s rows' book' k',
    current_book (λ _, 3) "ABC" (Some 0) 0
      [Row 1 "ABC" "buy" 100 10; Row 2 "ABC" "sell" 105 10;
       Row 5 "ABC" "buy" 101 10; Row 9 "ABC" "sell" 104 10] ∅ 0
      = (Ok s, rows', book', k')
    ∧ snap_t s = 5
    ∧ ¬ (snap_t s <= 0 + (3 - 0)).
Proof.
  do 4 eexists. split; [vm_compute; reflexivity|].
  split; [reflexivity|]. cbn. lia.
Qed.

(** C3, amended.  With pacing enabled a pull that returns hands out the
    first snapshot whose timestamp is strictly later than
    [sim_start + (now - rt_start)] at the clock reading made for it; the
    snapshots drained before it are those the clock had caught up with,
    and they are not returned. *)
Theorem current_book_returns_first_ahead (stock_name : string)
    (sim_start : option Z) (rt_start : Z) (rows : list row)
    (book : gmap string (list entry)) (k : nat) (s : snapshot)
    (rows' : list row) (book' : gmap string (list entry)) (k' : nat) :
  current_book clock stock_name sim_start rt_start rows book k
    = (Ok s, rows', book', k') →
  ∃ sim skipped r,
    sim_start = Some sim
    ∧ rows = skipped ++ r :: rows'
    ∧ snap_t s = r_t r
    ∧ sim + (clock (k + length skipped)%nat - rt_start) < snap_t s
    ∧ ∀ i r', skipped !! i = Some r' →
        r_t r' <= sim + (clock (k + i)%nat - rt_start).
Proof.
  intros H.
  apply current_book_ok_inv in H
    as (sim & skipped & r & Hsim & Hrows & _ & Ht & Hahead & Hskipped).
  exists sim, skipped, r. rewrite Ht. done.
Qed.

Variable csv : list row.

(** On a valid book and a valid row, [next()] of a replay generator yields
    the snapshot of the row and stores the insertion. *)
Lemma order_book_next_valid (r : row) (rows : list row)
    (book : gmap string (list entry)) (stock_name : string) :
  valid_book book → valid_row r →
  ∃ s, order_book_next (r :: rows) book stock_name
         = (Ok s, rows, insert_row stock_name book r)
       ∧ snap_t s = r_t r.
Proof.
  intros Hb Hr. cbn [order_book_next].
  destruct (clear_book_kwargs_valid _ (insert_row_valid stock_name _ _ Hb Hr))
    as ([bids asks] & -> & _).
  eexists. split; reflexivity.
Qed.

(** [read_10_first_lines] on generators that have enough valid rows left:
    [n] turns drop [n] rows from each generator and touch nothing but the
    books. *)
Lemma read_first_lines_drops (n : nat) (a : app) :
  (n <= length (_data_1 a))%nat → (n <= length (_data_2 a))%nat →
  valid_book (_book_1 a) → valid_book (_book_2 a) →
  Forall valid_row (_data_1 a) → Forall valid_row (_data_2 a) →
  ∃ book1 book2,
    read_first_lines n a
      = (Ok (), App book1 book2 (drop n (_data_1 a)) (drop n (_data_2 a))
                  (_rt_start a) (_sim_start a) (reads a))
    ∧ valid_book book1 ∧ valid_book book2.
Proof.
  revert a. induction n as [|n IH]; intros [b1 b2 d1 d2 rt sim k]; cbn.
  { intros _ _ Hb1 Hb2 _ _. by exists b1, b2. }
  intros Hl1 Hl2 Hb1 Hb2 Hd1 Hd2.
  destruct d1 as [|r1 d1]; [cbn in Hl1; lia|].
  destruct d2 as [|r2 d2]; [cbn in Hl2; lia|].
  apply Forall_cons in Hd1 as [Hr1 Hd1]. apply Forall_cons in Hd2 as [Hr2 Hd2].
  unfold next_data_1. cbn [_data_1 _book_1 _book_2 _data_2 _rt_start _sim_start reads].
  destruct (order_book_next_valid r1 d1 b1 "ABC" Hb1 Hr1) as (s1 & -> & _).
  unfold next_data_2. cbn [_data_1 _book_1 _book_2 _data_2 _rt_start _sim_start reads].
  destruct (order_book_next_valid r2 d2 b2 "DEF" Hb2 Hr2) as (s2 & -> & _).
  cbn in Hl1, Hl2.
  apply (IH (App _ _ d1 d2 rt sim k)); cbn; try lia; try done.
  - by apply insert_row_valid.
  - by apply insert_row_valid.
Qed.

(** A rebuild from a recorded source of at least 11 valid rows leaves the
    first generator 11 rows into the source and the second one 10 rows
    into it, and takes [_sim_start] from the first row; [_rt_start] is
    kept. *)
Lemma initialize_data_feeds_consumes (a : app) (r0 : row) (rest : list row) :
  csv = r0 :: rest →
  (10 <= length rest)%nat →
  valid_book (_book_1 a) → valid_book (_book_2 a) →
  Forall valid_row csv →
  ∃ book1 book2,
    initialize_data_feeds csv a
      = App book1 book2 (drop 11 csv) (drop 10 csv) (_rt_start a)
          (Some (r_t r0)) (reads a).
Proof.
  intros Hcsv Hlen Hb1 Hb2 Hv. unfold initialize_data_feeds.
  unfold next_data_1. cbn [_data_1 _book_1 _book_2 _data_2 _rt_start _sim_start reads].
  rewrite Hcsv in *. pose proof Hv as Hv0. apply Forall_cons in Hv0 as [Hr0 Hrest].
  destruct (order_book_next_valid r0 rest (_book_1 a) "ABC" Hb1 Hr0)
    as (s & -> & Hs).
  cbn [_data_1 _book_1 _book_2 _data_2 _rt_start _sim_start reads].
  unfold read_10_first_lines.
  edestruct (read_first_lines_drops 10
               (App (insert_row "ABC" (_book_1 a) r0) (_book_2 a) rest
                  (r0 :: rest) (_rt_start a) (Some (snap_t s)) (reads a)))
    as (book1 & book2 & -> & _ & _); cbn [_data_1 _data_2 _book_1 _book_2];
    try done.
  - cbn [length]. lia.
  - by apply insert_row_valid.
  - exists book1, book2. cbn [snd _rt_start _sim_start reads]. by rewrite Hs.
Qed.

(** A pull keeps the books and the rows left valid. *)
Lemma current_book_valid (stock_name : string) (sim_start : option Z)
    (rt_start : Z) (rows : list row) (book : gmap string (list entry))
    (k : nat) :
  valid_book book → Forall valid_row rows →
  valid_book (current_book clock stock_name sim_start rt_start rows book k).1.2
  ∧ Forall valid_row
      (current_book clock stock_name sim_start rt_start rows book k).1.1.2.
Proof.
  intros Hb Hrows. revert book k Hb.
  induction Hrows as [|r rows Hr Hrows IH]; intros book k Hb.
  { cbn. split; [done|constructor]. }
  cbn [current_book].
  destruct (order_book_next_valid r rows book stock_name Hb Hr) as (s & -> & _).
  pose proof (insert_row_valid stock_name book r Hb Hr) as Hb'.
  unfold REALTIME.
  destruct (ahead_of_clock clock sim_start rt_start k (snap_t s)) as [[|]|e];
    cbn [fst snd]; auto.
Qed.

Lemma pull_both_valid (a : app) :
  app_valid a → app_valid (pull_both clock a).2.
Proof.
  intros (Hb1 & Hb2 & Hd1 & Hd2). unfold pull_both, next_current_book_1.
  pose proof (current_book_valid "ABC" (_sim_start a) (_rt_start a)
                (_data_1 a) (_book_1 a) (reads a) Hb1 Hd1) as [Hb1' Hd1'].
  destruct (current_book clock "ABC" (_sim_start a) (_rt_start a) (_data_1 a)
              (_book_1 a) (reads a)) as [[[r1 rows1] book1] k1].
  cbn [fst snd] in Hb1', Hd1'.
  destruct r1 as [s1|e1]; [|by repeat split].
  unfold next_current_book_2.
  cbn [_data_1 _book_1 _book_2 _data_2 _rt_start _sim_start reads].
  pose proof (current_book_valid "DEF" (_sim_start a) (_rt_start a)
                (_data_2 a) (_book_2 a) k1 Hb2 Hd2) as [Hb2' Hd2'].
  destruct (current_book clock "DEF" (_sim_start a) (_rt_start a) (_data_2 a)
              (_book_2 a) k1) as [[[r2 rows2] book2] k2].
  cbn [fst snd] in Hb2', Hd2'.
  destruct r2 as [s2|e2]; by repeat split.
Qed.

(** The snapshots a double pull returns come from rows the two generators
    had left. *)
Lemma pull_both_ok_inv (a : app) (s1 s2 : snapshot) (a' : app) :
  pull_both clock a = (Ok (s1, s2), a') →
  snap_t s1 ∈ r_t <$> _data_1 a ∧ snap_t s2 ∈ r_t <$> _data_2 a.
Proof.
  unfold pull_both, next_current_book_1.
  destruct (current_book clock "ABC" (_sim_start a) (_rt_start a) (_data_1 a)
              (_book_1 a) (reads a)) as [[[r1 rows1] book1] k1] eqn:H1.
  destruct r1 as [t1|e1]; [|intros [=]].
  unfold next_current_book_2.
  cbn [_data_1 _book_1 _book_2 _data_2 _rt_start _sim_start reads].
  destruct (current_book clock "DEF" (_sim_start a) (_rt_start a) (_data_2 a)
              (_book_2 a) k1) as [[[r2 rows2] book2] k2] eqn:H2.
  destruct r2 as [t2|e2]; intros [= <- <- <-].
  apply current_book_ok_inv in H1 as (_ & sk1 & x1 & _ & -> & _ & -> & _).
  apply current_book_ok_inv in H2 as (_ & sk2 & x2 & _ & -> & _ & -> & _).
  rewrite !fmap_app, !fmap_cons.
  split; apply elem_of_app; right; apply list_elem_of_here.
Qed.

(** C6, amended.  When the pulls of a query find the replay exhausted,
    [handle_query] rebuilds both generators from the same recorded source
    and pulls again, once.  The rebuild itself consumes the first 11
    snapshots of the first generator and the first 10 of the second one,
    so the snapshots the retry returns come from the 12th or a later
    recorded row for the first stock, and from the 11th or a later row for
    the second. *)
Theorem handle_query_rebuild_skips_first_rows (a : app) (r0 : row)
    (rest : list row) :
  csv = r0 :: rest →
  (10 <= length rest)%nat →
  Forall valid_row csv →
  app_valid a →
  (pull_both clock a).1 = Raise StopIteration →
  let rebuilt := initialize_data_feeds csv (pull_both clock a).2 in
  handle_query clock csv a
    = (answer (pull_both clock rebuilt).1, (pull_both clock rebuilt).2)
  ∧ _data_1 rebuilt = drop 11 csv
  ∧ _data_2 rebuilt = drop 10 csv
  ∧ _sim_start rebuilt = Some (r_t r0)
  ∧ ∀ s1 s2 resp a',
      handle_query clock csv a = (Ok (s1, s2, resp), a') →
      snap_t s1 ∈ r_t <$> drop 11 csv ∧ snap_t s2 ∈ r_t <$> drop 10 csv.
Proof.
  intros Hcsv Hlen Hv Ha Hstop. cbv zeta.
  pose proof (pull_both_valid a Ha) as (Hb1 & Hb2 & _ & _).
  assert (Hq : handle_query clock csv a
               = (answer (pull_both clock
                            (initialize_data_feeds csv (pull_both clock a).2)).1,
                  (pull_both clock
                     (initialize_data_feeds csv (pull_both clock a).2)).2)).
  { unfold handle_query. destruct (pull_both clock a) as [r a1].
    cbn [fst snd] in *. subst r.
    by destruct (pull_both clock (initialize_data_feeds csv a1)). }
  destruct (initialize_data_feeds_consumes (pull_both clock a).2 r0 rest
              Hcsv Hlen Hb1 Hb2 Hv) as (book1 & book2 & Hinit).
  rewrite Hq, Hinit. cbn [_data_1 _data_2 _sim_start].
  do 4 (split; [reflexivity|]).
  intros s1 s2 resp a'.
  set (rebuilt := App book1 book2 _ _ _ _ _).
  destruct (pull_both clock rebuilt) as [[[t1 t2]|e] a2] eqn:Hpull;
    cbv [answer mbind result_bind fst snd]; [|intros [=]].
  intros [= <- <- _ _].
  apply pull_both_ok_inv in Hpull. exact Hpull.
Qed.

End Pacing.

Lemma current_book_returns_first_ahead_witness :
  ∃ sim skipped r,
    Some 0 = Some sim
    ∧ [Row 1 "ABC" "buy" 100 10; Row 2 "ABC" "sell" 105 10;
       Row 5 "ABC" "buy" 101 10; Row 9 "ABC" "sell" 104 10]
      = skipped ++ r :: [Row 9 "ABC" "sell" 104 10]
    ∧ snap_t (5, Some [(101, 10, 10); (100, 10, 9)], Some [(105, 10, 10)])
      = r_t r
    ∧ sim + (3 - 0)
      < snap_t (5, Some [(101, 10, 10); (100, 10, 9)], Some [(105, 10, 10)])
    ∧ ∀ i r', skipped !! i = Some r' → r_t r' <= sim + (3 - 0).
Proof.
  eapply (current_book_returns_first_ahead (λ _, 3) "ABC" (Some 0) 0
            [Row 1 "ABC" "buy" 100 10; Row 2 "ABC" "sell" 105 10;
             Row 5 "ABC" "buy" 101 10; Row 9 "ABC" "sell" 104 10] ∅ 0).
  vm_compute. reflexivity.
Defined.

(** C6, as stated: on [sample_csv], once the replay is exhausted, the
    query that rebuilds the generators returns the snapshots of the 12th
    and of the 11th recorded row, with timestamps 12 and 11; the first
    recorded row has timestamp 1. *)
Lemma handle_query_rebuild_not_first_row :
  (pull_both still_clock drained_app).1 = Raise StopIteration
  ∧ r_t <$> head sample_csv = Some 1
  ∧ ∃ s1 s2 resp a',
      handle_query still_clock sample_csv drained_app
        = (Ok (s1, s2, resp), a')
      ∧ snap_t s1 = 12 ∧ snap_t s2 = 11 ∧ timestamp resp = 12
      ∧ sample_csv !! 11%nat = Some (Row 12 "DEF" "sell" 83 9)
      ∧ snap_t s1 ≠ 1.
Proof.
  split; [vm_compute; reflexivity|]. split; [reflexivity|].
  do 4 eexists. split; [vm_compute; reflexivity|].
  repeat split. cbn. lia.
Qed.

Lemma handle_query_rebuild_skips_first_rows_witness :
  let rebuilt :=
    initialize_data_feeds sample_csv (pull_both still_clock drained_app).2 in
  handle_query still_clock sample_csv drained_app
    = (answer (pull_both still_clock rebuilt).1,
       (pull_both still_clock rebuilt).2)
  ∧ _data_1 rebuilt = drop 11 sample_csv
  ∧ _data_2 rebuilt = drop 10 sample_csv
  ∧ _sim_start rebuilt = Some (r_t (Row 1 "ABC" "sell" 105 10))
  ∧ ∀ s1 s2 resp a',
      handle_query still_clock sample_csv drained_app
        = (Ok (s1, s2, resp), a') →
      snap_t s1 ∈ r_t <$> drop 11 sample_csv
      ∧ snap_t s2 ∈ r_t <$> drop 10 sample_csv.
Proof.
  apply (handle_query_rebuild_skips_first_rows still_clock sample_csv
           drained_app (Row 1 "ABC" "sell" 105 10) (tail sample_csv)).
  - reflexivity.
  - cbn. lia.
  - apply (bool_decide_unpack _). vm_compute. reflexivity.
  - apply (bool_decide_unpack _). vm_compute. reflexivity.
  - vm_compute. reflexivity.
Defined.

End ServerFacts.

(** * Further properties of the code *)

(** ** Ageing, sorting and crossing *)

Module BookMore.

Import Book BookFacts.
Local Open Scope Z_scope.

(** Ageing keeps distinct ages distinct and brings every age below the
    bound it had, without letting one go negative. *)
Lemma aged_ages (book : list entry) (m : Z) :
  NoDup (eage <$> book) →
  Forall (λ e : entry, eage e <= m) book →
  NoDup (eage <$> aged book)
  ∧ Forall (λ e : entry, 0 <= eage e <= m - 1) (aged book).
Proof.
  unfold aged.
  induction book as [|[[o s] a] book IH]; cbn [fmap list_fmap eage snd];
    intros Hnd Hle.
  { split; constructor. }
  apply NoDup_cons in Hnd as [Hnotin Hnd]. apply Forall_cons in Hle as [Ha Hle].
  destruct (IH Hnd Hle) as [IHnd IHle].
  rewrite filter_cons. cbn [eage snd].
  destruct (decide (0 < a)) as [Hpos|Hneg]; [|done].
  rewrite fmap_cons. cbn [fmap list_fmap eage snd price esize fst].
  split.
  - apply NoDup_cons. split; [|exact IHnd].
    intros Hin. apply Hnotin.
    apply list_elem_of_fmap in Hin as ([[o1 s1] a1] & Heq & Hin).
    apply list_elem_of_fmap in Hin as ([[o2 s2] a2] & [= -> -> ->] & Hin).
    apply list_elem_of_filter in Hin as [_ Hin]. cbn in Heq.
    apply list_elem_of_fmap. exists (o2, s2, a2).
    split; [unfold eage; cbn [snd]; lia|done].
  - apply Forall_cons. split; [unfold eage in *; cbn [snd] in *; lia|exact IHle].
Qed.

(** What every stored book satisfies: the ages are pairwise distinct and
    lie between 0 and [default_age]. *)
Lemma add_book_ages (book : list entry) (order size : Z) :
  NoDup (eage <$> book) →
  Forall (λ e : entry, 0 <= eage e <= default_age) book →
  NoDup (eage <$> add_book book order size default_age)
  ∧ Forall (λ e : entry, 0 <= eage e <= default_age)
      (add_book book order size default_age).
Proof.
  intros Hnd Hall. rewrite add_book_aged.
  destruct (aged_ages book default_age Hnd) as [Hnd' Hall'].
  { eapply Forall_impl; [exact Hall|]. cbn. lia. }
  split.
  - rewrite fmap_cons. apply NoDup_cons. split; [|exact Hnd'].
    intros Hin. apply list_elem_of_fmap in Hin as (e & Heq & Hin).
    rewrite Forall_forall in Hall'. specialize (Hall' e Hin).
    cbn in Heq. lia.
  - apply Forall_cons. split; [cbn; unfold default_age; lia|].
    eapply Forall_impl; [exact Hall'|]. cbn. lia.
Qed.

Lemma sorted_add_book_ages (book : list entry) (order size : Z)
    (reverse : bool) :
  NoDup (eage <$> book) →
  Forall (λ e : entry, 0 <= eage e <= default_age) book →
  NoDup (eage <$> sorted (add_book book order size default_age) reverse)
  ∧ Forall (λ e : entry, 0 <= eage e <= default_age)
      (sorted (add_book book order size default_age) reverse).
Proof.
  intros Hnd Hall. rewrite sorted_perm. by apply add_book_ages.
Qed.

(** Distinct ages between 0 and 10 leave room for eleven entries. *)
Lemma distinct_ages_length (book : list entry) :
  NoDup (eage <$> book) →
  Forall (λ e : entry, 0 <= eage e <= default_age) book →
  (length book <= 11)%nat.
Proof.
  intros Hnd Hall.
  rewrite <- (length_fmap eage book).
  change 11%nat with (length (seqZ 0 11)).
  apply submseteq_length, NoDup_submseteq; [exact Hnd|].
  intros a Hin. apply list_elem_of_fmap in Hin as (e & -> & Hin).
  rewrite Forall_forall in Hall. specialize (Hall e Hin).
  apply elem_of_seqZ. unfold default_age in Hall. lia.
Qed.

(** The invariants of a stored dictionary are kept by an insertion. *)
Lemma insert_row_ages (stock_name : string) (book : gmap string (list entry))
    (r : row) :
  (∀ side l, book !! side = Some l →
     NoDup (eage <$> l) ∧ Forall (λ e : entry, 0 <= eage e <= default_age) l) →
  ∀ side l, insert_row stock_name book r !! side = Some l →
    NoDup (eage <$> l) ∧ Forall (λ e : entry, 0 <= eage e <= default_age) l.
Proof.
  intros Hinv side l. unfold insert_row.
  destruct (String.eqb stock_name (r_stock r)); [|apply Hinv].
  rewrite lookup_insert. case_decide as Hside; [|apply Hinv].
  intros [= <-].
  assert (Hold : NoDup (eage <$> default [] (book !! r_side r))
                 ∧ Forall (λ e : entry, 0 <= eage e <= default_age)
                     (default [] (book !! r_side r))).
  { destruct (book !! r_side r) as [l0|] eqn:Hl0; cbn; [by eapply Hinv|].
    split; constructor. }
  destruct Hold as [Hnd Hall].
  by apply sorted_add_book_ages.
Qed.

Lemma insert_row_in_order (stock_name : string)
    (book : gmap string (list entry)) (r : row) :
  (∀ side l, book !! side = Some l →
     Sorted (in_order (String.eqb side "buy")) l) →
  ∀ side l, insert_row stock_name book r !! side = Some l →
    Sorted (in_order (String.eqb side "buy")) l.
Proof.
  intros Hinv side l. unfold insert_row.
  destruct (String.eqb stock_name (r_stock r)); [|apply Hinv].
  rewrite lookup_insert. case_decide as Hside; [|apply Hinv].
  intros [= <-]. subst side.
  exact (sorted_in_order
           (add_book (default [] (book !! r_side r)) (r_order r) (r_size r)
              default_age) (String.eqb (r_side r) "buy")).
Qed.

(** The dictionary a drained generator leaves is a fold of insertions over
    the rows it has read. *)
Lemma order_book_stored (rows : list row) (book : gmap string (list entry))
    (stock_name : string) :
  ∃ n, (order_book rows book stock_name).2
       = foldl (insert_row stock_name) book (take n rows).
Proof.
  revert book. induction rows as [|r rows IH]; intros book.
  { by exists 0%nat. }
  cbn [order_book].
  destruct (clear_book_kwargs (insert_row stock_name book r)) as [[bids asks]|e].
  - destruct (IH (insert_row stock_name book r)) as [n Hn].
    exists (S n). cbn [take foldl]. rewrite <- Hn.
    by destruct (order_book rows (insert_row stock_name book r) stock_name)
      as [[snaps e] book'].
  - by exists 1%nat.
Qed.

Lemma foldl_insert_row_inv (P : string → list entry → Prop)
    (stock_name : string) (rows : list row) (book : gmap string (list entry)) :
  (∀ book r, (∀ side l, book !! side = Some l → P side l) →
     ∀ side l, insert_row stock_name book r !! side = Some l → P side l) →
  (∀ side l, book !! side = Some l → P side l) →
  ∀ side l, foldl (insert_row stock_name) book rows !! side = Some l → P side l.
Proof.
  intros Hstep. revert book.
  induction rows as [|r rows IH]; intros book Hinv; cbn [foldl]; [done|].
  apply IH. by apply Hstep.
Qed.

(** X1.  Whatever rows the replay generator reads, and whether it ends by
    exhaustion or by an error, every book it leaves in the dictionary holds
    entries of pairwise distinct ages between 0 and 10, hence at most eleven
    entries, provided the dictionary it started from did. *)
Theorem order_book_ages_bounded (rows : list row)
    (book : gmap string (list entry)) (stock_name : string) :
  (∀ side l, book !! side = Some l →
     NoDup (eage <$> l) ∧ Forall (λ e : entry, 0 <= eage e <= 10) l) →
  ∀ side l, (order_book rows book stock_name).2 !! side = Some l →
    NoDup (eage <$> l) ∧ Forall (λ e : entry, 0 <= eage e <= 10) l
    ∧ (length l <= 11)%nat.
Proof.
  intros Hinv side l Hl.
  destruct (order_book_stored rows book stock_name) as [n Hn].
  rewrite Hn in Hl.
  pose proof (foldl_insert_row_inv
    (λ _ l, NoDup (eage <$> l)
            ∧ Forall (λ e : entry, 0 <= eage e <= default_age) l)
    stock_name (take n rows) book
    (insert_row_ages stock_name) Hinv side l Hl) as [Hnd Hall].
  repeat split; [done..|]. by apply distinct_ages_length.
Qed.

Lemma order_book_ages_bounded_witness :
  NoDup (eage <$> [(100, 10, 10)])
  ∧ Forall (λ e : entry, 0 <= eage e <= 10) [(100, 10, 10)]
  ∧ (length [(100, 10, 10)] <= 11)%nat.
Proof.
  apply (order_book_ages_bounded
           [Row 1 "ABC" "sell" 99 20; Row 2 "ABC" "buy" 100 10;
            Row 3 "ABC" "wait" 100 15] ∅ "ABC") with (side := "buy"%string).
  - intros side l Hl. by rewrite lookup_empty in Hl.
  - vm_compute. reflexivity.
Defined.

(** X2.  Every book the replay generator leaves in the dictionary is in
    price order: the book under ["buy"] has non-increasing prices and every
    other book non-decreasing prices, provided the dictionary it started
    from was in order. *)
Theorem order_book_in_order (rows : list row)
    (book : gmap string (list entry)) (stock_name : string) :
  (∀ side l, book !! side = Some l →
     Sorted (in_order (String.eqb side "buy")) l) →
  ∀ side l, (order_book rows book stock_name).2 !! side = Some l →
    Sorted (in_order (String.eqb side "buy")) l.
Proof.
  intros Hinv side l Hl.
  destruct (order_book_stored rows book stock_name) as [n Hn].
  rewrite Hn in Hl.
  exact (foldl_insert_row_inv
    (λ side l, Sorted (in_order (String.eqb side "buy")) l)
    stock_name (take n rows) book
    (insert_row_in_order stock_name) Hinv side l Hl).
Qed.

Lemma order_book_in_order_witness :
  Sorted (in_order (String.eqb "buy" "buy")) [(100, 10, 10); (99, 20, 9)].
Proof.
  apply (order_book_in_order
           [Row 1 "ABC" "buy" 99 20; Row 2 "ABC" "buy" 100 10;
            Row 3 "ABC" "sell" 100 15] ∅ "ABC") with (side := "buy"%string).
  - intros side l Hl. by rewrite lookup_empty in Hl.
  - vm_compute. reflexivity.
Defined.

(** Ageing invents no price. *)
Lemma aged_prices (book : list entry) :
  (price <$> aged book) `sublist_of` (price <$> book).
Proof.
  unfold aged. induction book as [|[[o s] a] book IH]; [done|].
  rewrite filter_cons. cbn [eage snd]. destruct (decide (0 < a)).
  - rewrite !fmap_cons. cbn [price fst]. by apply sublist_skip.
  - rewrite fmap_cons. by apply sublist_cons.
Qed.

Lemma clear_order_some_prices (order size : Z) (book : list entry)
    (op : Z → Z → bool) (n n' : Z) (book' : list entry) :
  clear_order order size book op n = Ok (Some (n', book')) →
  (price <$> book') `sublist_of` (price <$> book).
Proof.
  revert size n.
  induction book as [|[[to ts] age] book IH]; intros size n; cbn [clear_order];
    [done|].
  destruct (op order to); [|done].
  destruct (0 <? ts - size).
  - intros [= <- <-]. rewrite add_book_aged, !fmap_cons. cbn [price fst].
    apply sublist_skip, aged_prices.
  - destruct (0 <? length book)%nat; [|done].
    intros H. rewrite fmap_cons. apply sublist_cons. by eapply IH.
Qed.

Lemma clear_book_loop_frame (buy sell : list entry) :
  ∃ buy' sell',
    clear_book_loop buy sell = Ok (buy', sell')
    ∧ buy' `suffix_of` buy
    ∧ (price <$> sell') `sublist_of` (price <$> sell)
    ∧ (sell ≠ [] → sell' ≠ []).
Proof.
  revert sell.
  induction buy as [|[[o s] a] buy IH]; intros sell; cbn [clear_book_loop].
  { by exists [], sell. }
  destruct sell as [|e sell]; [by eexists _, []|].
  destruct (clear_order_returns o s e sell operator_ge 0) as [r Hr].
  rewrite Hr. cbv [mbind result_bind].
  destruct r as [[n' nb]|]; [|by eexists _, _].
  cbn [snd].
  destruct (IH nb) as (buy' & sell' & -> & Hsuf & Hsub & Hne).
  exists buy', sell'. split; [done|].
  split; [by apply suffix_cons_r|].
  split.
  - etrans; [exact Hsub|]. by eapply clear_order_some_prices.
  - intros _. apply Hne. by eapply clear_order_some_nonempty.
Qed.

(** X3.  A successful [clear_order] has filled the whole incoming size: it
    consumed a prefix of the book entirely, every entry of it no larger than
    what was left of the incoming size when it was reached, and a part of
    the next entry, which was larger than what was left; all of them are
    crossed by the incoming price.  The notional has grown, level by level
    in the order of the book, by the sizes filled times their prices, and
    the book returned is the partly filled entry, its age unchanged, in
    front of the aged rest. *)
Theorem clear_order_fills_size (order size : Z) (book : list entry)
    (op : Z → Z → bool) (n n' : Z) (book' : list entry) :
  clear_order order size book op n = Ok (Some (n', book')) →
  ∃ consumed top tail,
    book = consumed ++ top :: tail
    ∧ Forall (λ e : entry, op order (price e) = true) (consumed ++ [top])
    ∧ (∀ i e, consumed !! i = Some e →
         esize e <= size - foldr Z.add 0 (esize <$> take i consumed))
    ∧ size - foldr Z.add 0 (esize <$> consumed) < esize top
    ∧ n' = foldl (λ acc (e : entry), acc + esize e * price e) n consumed
           + (size - foldr Z.add 0 (esize <$> consumed)) * price top
    ∧ book' = (price top,
               esize top - (size - foldr Z.add 0 (esize <$> consumed)),
               eage top) :: aged tail.
Proof.
  revert size n.
  induction book as [|[[to ts] age] book IH]; intros size n; cbn [clear_order];
    [done|].
  destruct (op order to) eqn:Hop; [|done].
  destruct (Z.ltb_spec 0 (ts - size)) as [Hpart|Hfull].
  - intros [= <- <-]. exists [], (to, ts, age), book.
    cbn [fmap list_fmap foldr foldl app price esize eage fst snd].
    rewrite Z.min_l, add_book_aged by lia.
    split; [done|]. split; [by repeat constructor|].
    split; [intros i e Hi; by rewrite lookup_nil in Hi|].
    split; [lia|]. split; [lia|]. f_equal. f_equal. f_equal. lia.
  - destruct (0 <? length book)%nat; [|done].
    intros H. apply IH in H
      as (consumed & top & tail & -> & Hops & Hfit & Hrem & -> & ->).
    exists ((to, ts, age) :: consumed), top, tail.
    rewrite !fmap_cons. cbn [foldr foldl app price esize eage fst snd].
    rewrite Z.min_r by lia.
    split; [done|]. split; [by constructor|].
    split.
    { intros [|i] e Hi; cbn in Hi.
      - injection Hi as <-. cbn. lia.
      - specialize (Hfit i e Hi). cbn. lia. }
    split; [lia|]. split; [lia|]. f_equal. f_equal. f_equal. lia.
Qed.

Lemma clear_order_fills_size_witness :
  ∃ consumed top tail,
    [(99, 5, 3); (100, 10, 7); (101, 4, 0)] = consumed ++ top :: tail
    ∧ Forall (λ e : entry, operator_ge 100 (price e) = true) (consumed ++ [top])
    ∧ (∀ i e, consumed !! i = Some e →
         esize e <= 8 - foldr Z.add 0 (esize <$> take i consumed))
    ∧ 8 - foldr Z.add 0 (esize <$> consumed) < esize top
    ∧ 5 * 99 + 3 * 100
      = foldl (λ acc (e : entry), acc + esize e * price e) 0 consumed
        + (8 - foldr Z.add 0 (esize <$> consumed)) * price top
    ∧ [(100, 7, 7)]
      = (price top, esize top - (8 - foldr Z.add 0 (esize <$> consumed)),
         eage top) :: aged tail.
Proof.
  apply (clear_order_fills_size 100 8 [(99, 5, 3); (100, 10, 7); (101, 4, 0)]
           operator_ge 0).
  reflexivity.
Defined.

(** X4.  [clear_book] on two books never raises.  The buy book it returns
    is a suffix of the one it was given, the prices of the sell book it
    returns are a sublist of the prices it was given, and a sell book that
    was not empty is not empty afterwards. *)
Theorem clear_book_frame (buy sell : list entry) :
  ∃ buy' sell',
    clear_book (Some buy) (Some sell) = Ok (Some buy', Some sell')
    ∧ buy' `suffix_of` buy
    ∧ (price <$> sell') `sublist_of` (price <$> sell)
    ∧ (sell ≠ [] → sell' ≠ []).
Proof.
  destruct (clear_book_loop_frame buy sell) as (buy' & sell' & H & Hrest).
  exists buy', sell'. split; [|exact Hrest].
  cbn [clear_book]. by rewrite H.
Qed.

(** X5.  When [clear_book] returns two books that are not empty, either
    the best bid is strictly below the best ask, or the best ask is no
    larger than the best bid: a pair is left crossed only where the bid at
    the top could not be filled by the ask at the top alone. *)
Theorem clear_book_crossed_only_short (buy sell : list entry) (b s : entry)
    (buy' sell' : list entry) :
  clear_book (Some buy) (Some sell) = Ok (Some (b :: buy'), Some (s :: sell')) →
  price b < price s ∨ esize s <= esize b.
Proof.
  cbn [clear_book].
  destruct (clear_book_loop buy sell) as [[b1 s1]|e] eqn:Hloop; [|done].
  cbv [mbind result_bind]. intros [= -> ->].
  apply clear_book_loop_stops in Hloop.
  destruct s as [[so ss] sa]. cbn [clear_order] in Hloop.
  unfold operator_ge in Hloop. cbn [price esize fst snd].
  destruct (Z.leb_spec so (price b)); [|lia].
  destruct (Z.ltb_spec 0 (ss - esize b)); [done|lia].
Qed.

Lemma clear_book_crossed_only_short_witness :
  price (100, 10, 10) < price (99, 5, 10)
  ∨ esize (99, 5, 10) <= esize (100, 10, 10).
Proof.
  apply (clear_book_crossed_only_short
           [(102, 3, 9); (100, 10, 10)] [(99, 8, 10)]
           (100, 10, 10) (99, 5, 10) [] []).
  reflexivity.
Defined.

(** X6.  On a pair that is not crossed [clear_book] changes nothing. *)
Theorem clear_book_uncrossed_unchanged (buy sell : option (list entry)) :
  uncrossed buy sell → clear_book buy sell = Ok (buy, sell).
Proof.
  destruct buy as [[|[[bo bs] ba] buy]|], sell as [[|[[so ss] sa] sell]|];
    try reflexivity.
  cbn. unfold operator_ge. intros Hlt.
  destruct (Z.leb_spec so bo); [lia|reflexivity].
Qed.

Lemma clear_book_uncrossed_unchanged_witness :
  clear_book (Some [(100, 10, 10); (99, 1, 4)]) (Some [(101, 5, 10)])
    = Ok (Some [(100, 10, 10); (99, 1, 4)], Some [(101, 5, 10)]).
Proof. apply clear_book_uncrossed_unchanged. cbn. lia. Defined.

(** X7.  A row of the generator's stock whose side is neither ["buy"] nor
    ["sell"] makes [next()] raise [TypeError]: the side is stored as a key
    of the dictionary, which [clear_book] does not accept as a keyword.
    The generator is finished: it yields nothing for the rows after. *)
Theorem order_book_next_bad_side (r : row) (rows : list row)
    (book : gmap string (list entry)) :
  ¬ valid_row r →
  ∃ book',
    order_book_next (r :: rows) book (r_stock r) = (Raise TypeError, [], book')
    ∧ is_Some (book' !! r_side r)
    ∧ order_book (r :: rows) book (r_stock r) = ([], TypeError, book')
    ∧ order_book_next [] book' (r_stock r) = (Raise StopIteration, [], book').
Proof.
  intros Hbad. eexists. cbn [order_book_next order_book].
  set (book' := insert_row (r_stock r) book r).
  assert (Hkey : is_Some (book' !! r_side r)).
  { unfold book', insert_row. rewrite String.eqb_refl.
    rewrite lookup_insert_eq. eauto. }
  assert (Hkw : clear_book_kwargs book' = Raise TypeError).
  { unfold clear_book_kwargs. rewrite bool_decide_eq_false_2; [done|].
    intros Hvalid. apply Hbad. unfold valid_row.
    apply elem_of_dom in Hkey. apply Hvalid in Hkey.
    apply elem_of_union in Hkey as [Hk|Hk]; apply elem_of_singleton in Hk; auto. }
  rewrite Hkw. done.
Qed.

Lemma order_book_next_bad_side_witness :
  ∃ book',
    order_book_next
      [Row 1 "ABC" "hold" 99 20; Row 2 "ABC" "buy" 100 10] ∅ "ABC"
      = (Raise TypeError, [], book')
    ∧ is_Some (book' !! "hold")
    ∧ order_book [Row 1 "ABC" "hold" 99 20; Row 2 "ABC" "buy" 100 10] ∅ "ABC"
      = ([], TypeError, book')
    ∧ order_book_next [] book' "ABC" = (Raise StopIteration, [], book').
Proof.
  apply (order_book_next_bad_side (Row 1 "ABC" "hold" 99 20)
           [Row 2 "ABC" "buy" 100 10] ∅).
  unfold valid_row. cbn. intros [H|H]; discriminate H.
Defined.

(** Sorting keeps the entries of one price in the order they had. *)
Lemma sorted_insert_filter (reverse : bool) (x : entry) (l : list entry)
    (p : Z) :
  filter (λ e : entry, price e = p) (sorted_insert reverse x l)
    = filter (λ e : entry, price e = p) (x :: l).
Proof.
  induction l as [|y l IH]; [done|]. cbn [sorted_insert].
  destruct (goes_before reverse x y) eqn:Hgo; [done|].
  assert (Hne : price x ≠ price y).
  { intros Heq. unfold goes_before in Hgo. rewrite Heq in Hgo.
    destruct reverse; by rewrite Z.leb_refl in Hgo. }
  rewrite (filter_cons _ y), IH, !filter_cons.
  destruct (decide (price y = p)), (decide (price x = p)); congruence.
Qed.

Lemma sorted_filter (new : list entry) (reverse : bool) (p : Z) :
  filter (λ e : entry, price e = p) (sorted new reverse)
    = filter (λ e : entry, price e = p) new.
Proof.
  unfold sorted. induction new as [|x new IH]; [done|]. cbn [foldr].
  by rewrite sorted_insert_filter, !filter_cons, IH.
Qed.

(** X8.  An order inserted in a book goes ahead of the resting entries of
    the same price: among the entries at its price the stored book has the
    new entry first, with age 10, followed by the older ones in the order
    they had, one unit older. *)
Theorem insert_row_newest_first (book : gmap string (list entry)) (r : row) :
  ∃ l, insert_row (r_stock r) book r !! r_side r = Some l
       ∧ filter (λ e : entry, price e = r_order r) l
         = (r_order r, r_size r, 10)
             :: filter (λ e : entry, price e = r_order r)
                  (aged (default [] (book !! r_side r))).
Proof.
  unfold insert_row. rewrite String.eqb_refl, lookup_insert_eq.
  eexists. split; [reflexivity|]. cbv zeta.
  rewrite sorted_filter, add_book_aged, filter_cons.
  by rewrite decide_True.
Qed.

End BookMore.

(** ** Walks, ticks and generated orders *)

Module GenMore.

Import Gen Market GenFacts.
Local Open Scope Q_scope.

(** X9.  With [min] equal to [max] the first [next()] of [bwalk] raises
    [ZeroDivisionError]: the modulus is taken by twice the range, which
    is 0. *)
Theorem bwalk_equal_bounds_raises (min max std z : Q) (zs : list Q) :
  min == max → bwalk min max std (z :: zs) = Raise ZeroDivisionError.
Proof.
  intros Heq. unfold bwalk. cbn [bwalk_from]. unfold bwalk_next, py_mod.
  assert (Hz : Qeq_bool ((max - min) * 2) 0 = true)
    by (apply Qeq_bool_iff; lra).
  by rewrite Hz.
Qed.

Lemma bwalk_equal_bounds_raises_witness :
  bwalk 5 (10 # 2) 1 [3; 4] = Raise ZeroDivisionError.
Proof. apply bwalk_equal_bounds_raises. reflexivity. Defined.

(** Rounding to the nearest integer does not leave an interval with integer
    ends. *)
Lemma round_half_even_between (a b : Z) (x : Q) :
  inject_Z a <= x → x <= inject_Z b →
  (a <= round_half_even x <= b)%Z.
Proof.
  intros Ha Hb.
  pose proof (Qfloor_resp_le _ _ Ha) as Hfa. rewrite Qfloor_Z in Hfa.
  pose proof (Qfloor_resp_le _ _ Hb) as Hfb. rewrite Qfloor_Z in Hfb.
  pose proof (Qfloor_le x) as Hlo.
  unfold round_half_even. set (f := Qfloor x) in *.
  assert (Hup : (f = b → x - inject_Z f <= 0)).
  { intros ->. lra. }
  assert (Hcase : (f < b ∨ f = b)%Z) by lia.
  destruct (Qle_bool (x - inject_Z f) (1 # 2)) eqn:H1.
  - destruct (Qle_bool (1 # 2) (x - inject_Z f)) eqn:H2; [|lia].
    apply Qle_bool_iff in H2.
    destruct (Z.even f); [lia|].
    destruct Hcase as [?|Hfb']; [lia|]. specialize (Hup Hfb'). lra.
  - destruct Hcase as [?|Hfb']; [lia|]. specialize (Hup Hfb').
    assert (Qle_bool (x - inject_Z f) (1 # 2) = true)
      by (apply Qle_bool_iff; lra).
    congruence.
Qed.

(** X12.  [orders] emits one order per tick, with the tick's timestamp and
    in the order of the ticks; every order is for ["ABC"] or ["DEF"], a
    ["buy"] or a ["sell"], of a size that is not negative. *)
Theorem orders_well_formed (hist : list tick) (drs : list draws) :
  o_t <$> orders hist drs = (λ tk : tick, tk.1.1) <$> take (length drs) hist
  ∧ Forall (λ o, (o_stock o = "ABC"%string ∨ o_stock o = "DEF"%string)
                 ∧ (o_side o = "buy"%string ∨ o_side o = "sell"%string)
                 ∧ (0 <= o_size o)%Z) (orders hist drs).
Proof.
  revert drs. induction hist as [|[[t px] spd] hist IH]; intros [|dr drs];
    cbn [orders length take fmap list_fmap]; try (split; [done|constructor]).
  destruct (IH drs) as [IHt IHall]. split.
  - f_equal; [|exact IHt]. unfold orders_next.
    by destruct (side_of (u_side dr)).
  - constructor; [|exact IHall]. unfold orders_next.
    destruct (side_of_cases (u_side dr)) as [-> | ->];
      cbn [o_stock o_side o_size];
      (split; [destruct (Qlt_le_dec (1 # 2) (u_stock dr)); auto|]);
      (split; [auto|]).
    all: unfold py_int;
      rewrite (proj2 (Qle_bool_iff 0 _) (Qabs_nonneg _));
      change 0%Z with (Qfloor 0); apply Qfloor_resp_le, Qabs_nonneg.
Qed.

(** *** Market ticks and the recorded file *)

Lemma timedelta_hours_nonneg (h : Q) : (0 <= timedelta_hours (Qabs h))%Z.
Proof.
  unfold timedelta_hours.
  pose proof (Qabs_nonneg h) as Hh.
  apply (round_half_even_between 0 (Qceiling (Qabs h * 3600000000))).
  - change (inject_Z 0) with 0. nra.
  - apply Qle_ceiling.
Qed.

Lemma timedelta_hours_between (h : Q) :
  12 <= h → h <= 36 →
  (43200000000 <= timedelta_hours (Qabs h) <= 129600000000)%Z.
Proof.
  intros Hlo Hhi. unfold timedelta_hours.
  assert (Heq : Qabs h * 3600000000 == h * 3600000000)
    by (rewrite Qabs_pos; [reflexivity|lra]).
  rewrite (round_half_even_comp _ _ Heq).
  apply round_half_even_between; unfold inject_Z; lra.
Qed.

Lemma market_ticks_length (t0 : Z) (walks : list (Q * Q * Q)) :
  length (market_ticks t0 walks) = length walks.
Proof.
  revert t0. induction walks as [|[[h px] spd] walks IH]; intros t0; [done|].
  cbn. by rewrite IH.
Qed.

(** The tick of index [n] carries the price and the spread of index [n],
    and a timestamp that is not before [t0]; with gaps of 12 to 36 hours it
    is [n] gaps after [t0]. *)
Lemma market_ticks_lookup (t0 : Z) (walks : list (Q * Q * Q)) (n : nat)
    (tk : tick) :
  market_ticks t0 walks !! n = Some tk →
  (t0 <= tk.1.1)%Z
  ∧ ∃ h, walks !! n = Some (h, tk.1.2, tk.2).
Proof.
  revert t0 n. induction walks as [|[[h px] spd] walks IH]; intros t0 n;
    [done|].
  destruct n as [|n]; cbn [market_ticks lookup list_lookup].
  - intros [= <-]. cbn. split; [lia|eauto].
  - intros H. apply IH in H as [Hle Hw]. split; [|exact Hw].
    pose proof (timedelta_hours_nonneg h). lia.
Qed.

Lemma market_ticks_gap (t0 : Z) (walks : list (Q * Q * Q)) (i j : nat)
    (a b : tick) :
  Forall (λ w : Q * Q * Q, 12 <= w.1.1 ∧ w.1.1 <= 36) walks →
  (i <= j)%nat →
  market_ticks t0 walks !! i = Some a →
  market_ticks t0 walks !! j = Some b →
  (a.1.1 + Z.of_nat (j - i) * 43200000000 <= b.1.1
   <= a.1.1 + Z.of_nat (j - i) * 129600000000)%Z.
Proof.
  intros Hall. revert t0 i j a b.
  induction Hall as [|[[h px] spd] walks [Hlo Hhi] Hall IH];
    intros t0 i j a b Hij; [done|].
  cbn [fst] in Hlo, Hhi.
  pose proof (timedelta_hours_between h Hlo Hhi) as Hh.
  destruct i as [|i].
  - cbn [market_ticks lookup list_lookup]. intros [= <-]. cbn [fst].
    destruct j as [|j]; cbn [lookup list_lookup].
    + intros [= <-]. cbn. lia.
    + intros Hb.
      assert (H0 : ∃ c, market_ticks (t0 + timedelta_hours (Qabs h)) walks
                          !! 0%nat = Some c).
      { destruct walks as [|[[h' px'] spd'] walks]; [done|]. cbn. eauto. }
      destruct H0 as [c Hc].
      pose proof (IH _ 0%nat j c b ltac:(lia) Hc Hb) as Hgap.
      assert (Hct : c.1.1 = (t0 + timedelta_hours (Qabs h))%Z).
      { destruct walks as [|[[h' px'] spd'] walks]; [done|].
        cbn in Hc. by injection Hc as <-. }
      rewrite Hct in Hgap. replace (j - 0)%nat with j in Hgap by lia.
      replace (S j - 0)%nat with (S j) by lia. lia.
  - destruct j as [|j]; [lia|]. cbn [market_ticks lookup list_lookup].
    intros Ha Hb. replace (S j - S i)%nat with (j - i)%nat by lia.
    eapply (IH _ i j a b); [lia|exact Ha|exact Hb].
Qed.

(** [market] runs its three walks and builds the ticks from them. *)
Lemma market_walks (t0 : Z) (zs : list (Q * Q * Q)) :
  ∃ walks,
    market t0 zs = Ok (market_ticks t0 walks)
    ∧ length walks = length zs
    ∧ Forall (λ w : Q * Q * Q,
                (12 <= w.1.1 ∧ w.1.1 <= 36)
                ∧ (60 <= w.1.2 ∧ w.1.2 <= 150)
                ∧ (2 <= w.2 ∧ w.2 <= 6)) walks.
Proof.
  unfold market, bwalk, FREQ, PX, SPD. cbn [fst snd].
  destruct (bwalk_from_bounded 12 (36 - 12) 50 (zs.*1.*1) 36)
    as (hs & -> & Hlh & Hh); [reflexivity|].
  destruct (bwalk_from_bounded 60 (150 - 60) 1 (zs.*1.*2) 150)
    as (ps & -> & Hlp & Hp); [reflexivity|].
  destruct (bwalk_from_bounded 2 (6 - 2) (1 # 10) (zs.*2) 6)
    as (ss & -> & Hls & Hs); [reflexivity|].
  cbv [mbind result_bind].
  rewrite ?length_fmap in Hlh. rewrite ?length_fmap in Hlp.
  rewrite ?length_fmap in Hls.
  exists (zip3 hs ps ss). split; [done|]. unfold zip3. split.
  - rewrite !length_zip. lia.
  - apply Forall_lookup. intros n [[h px] spd] Hn.
    apply lookup_zip_Some in Hn as [Hn Hs'].
    apply lookup_zip_Some in Hn as [Hh' Hp']. cbn [fst snd].
    rewrite Forall_lookup in Hh, Hp, Hs.
    specialize (Hh n h Hh'). specialize (Hp n px Hp').
    specialize (Hs n spd Hs'). cbn in Hh, Hp, Hs.
    repeat split; lra.
Qed.

(** The timestamps of the orders are those of the ticks. *)
Lemma orders_lookup (hist : list tick) (drs : list draws) (n : nat)
    (o : order_row) :
  orders hist drs !! n = Some o →
  ∃ tk dr, hist !! n = Some tk ∧ drs !! n = Some dr ∧ o_t o = tk.1.1
           ∧ (o_side o = "buy"%string ∨ o_side o = "sell"%string).
Proof.
  revert drs n. induction hist as [|[[t px] spd] hist IH]; intros [|dr drs] n;
    cbn [orders]; try done.
  destruct n as [|n]; cbn [lookup list_lookup].
  - intros [= <-]. exists (t, px, spd), dr. repeat split.
    + unfold orders_next. by destruct (side_of (u_side dr)).
    + unfold orders_next.
      destruct (side_of_cases (u_side dr)) as [-> | ->]; cbn; auto.
  - apply IH.
Qed.

Lemma orders_length (hist : list tick) (drs : list draws) :
  length (orders hist drs) = Nat.min (length hist) (length drs).
Proof.
  revert drs. induction hist as [|tk hist IH]; intros [|dr drs]; cbn; try done.
  by rewrite IH.
Qed.

(** The loop of [generate_csv] stops at the first order past the limit and
    writes what comes before it. *)
Lemma generate_csv_breaks (t0 : Z) (os : list order_row) (k : nat)
    (o : order_row) :
  os !! k = Some o →
  (t0 + SIM_LENGTH < o_t o)%Z →
  ∃ rows, generate_csv t0 os = (rows, true)
          ∧ (length rows <= k)%nat
          ∧ rows `prefix_of` os
          ∧ Forall (λ o, (o_t o <= t0 + SIM_LENGTH)%Z) rows.
Proof.
  revert k. induction os as [|o' os IH]; intros k Hk Hlate; [done|].
  cbn [generate_csv].
  destruct (Z.ltb_spec (t0 + SIM_LENGTH) (o_t o')) as [Hbr|Hkeep].
  - exists []. repeat split; [cbn; lia|apply prefix_nil|constructor].
  - destruct k as [|k]; cbn in Hk.
    { injection Hk as ->. lia. }
    destruct (IH k Hk Hlate) as (rows & -> & Hlen & Hpre & Hall).
    exists (o' :: rows). repeat split; [cbn; lia|by apply prefix_cons|].
    by constructor.
Qed.

(** X14.  [generate_csv] stops: given the orders of at least 3652 ticks it
    reaches its [break], having written at most 3651 rows.  The rows
    written are the first orders generated; their timestamps lie between
    [MARKET_OPEN] and [MARKET_OPEN + SIM_LENGTH] and never decrease, and
    their sides are ["buy"] or ["sell"]. *)
Theorem generate_csv_stops (market_open : Z) (zs : list (Q * Q * Q))
    (drs : list draws) :
  length drs = length zs →
  (3652 <= length zs)%nat →
  ∃ ticks rows,
    market market_open zs = Ok ticks
    ∧ generate_csv market_open (orders ticks drs) = (rows, true)
    ∧ (length rows <= 3651)%nat
    ∧ rows `prefix_of` orders ticks drs
    ∧ Forall (λ o, (market_open <= o_t o <= market_open + SIM_LENGTH)%Z
                   ∧ (o_side o = "buy"%string ∨ o_side o = "sell"%string))
        rows
    ∧ ∀ i j a b, (i <= j)%nat → rows !! i = Some a → rows !! j = Some b →
        (o_t a <= o_t b)%Z.
Proof.
  intros Hdrs Hlen.
  destruct (market_walks market_open zs) as (walks & Hm & Hwl & Hall).
  assert (Hfreq : Forall (λ w : Q * Q * Q, 12 <= w.1.1 ∧ w.1.1 <= 36) walks)
    by (eapply Forall_impl; [exact Hall|]; cbn; tauto).
  set (ticks := market_ticks market_open walks) in *.
  assert (Hol : length (orders ticks drs) = length zs).
  { rewrite orders_length. unfold ticks. rewrite market_ticks_length. lia. }
  destruct (lookup_lt_is_Some_2 (orders ticks drs) 3651) as [o Ho]; [lia|].
  destruct (lookup_lt_is_Some_2 (orders ticks drs) 0) as [o0 Ho0]; [lia|].
  assert (Hstart : ∀ n o', orders ticks drs !! n = Some o' →
            (market_open + Z.of_nat n * 43200000000 <= o_t o')%Z
            ∧ (o_side o' = "buy"%string ∨ o_side o' = "sell"%string)).
  { intros n o' Hn.
    apply orders_lookup in Hn as (tk & dr & Htk & _ & -> & Hside).
    split; [|exact Hside].
    apply orders_lookup in Ho0 as (tk0 & dr0 & Htk0 & _ & _ & _).
    pose proof (market_ticks_gap market_open walks 0 n tk0 tk Hfreq
                  ltac:(lia) Htk0 Htk) as Hgap.
    apply market_ticks_lookup in Htk0 as [Hge _].
    replace (n - 0)%nat with n in Hgap by lia. lia. }
  destruct (generate_csv_breaks market_open (orders ticks drs) 3651 o Ho)
    as (rows & Hgen & Hrl & Hpre & Hlim).
  { destruct (Hstart _ _ Ho) as [Hlate _]. unfold SIM_LENGTH. lia. }
  exists ticks, rows. split; [exact Hm|]. split; [exact Hgen|].
  split; [exact Hrl|]. split; [exact Hpre|].
  destruct Hpre as [rest Hrest]. split.
  - apply Forall_lookup. intros n o' Hn.
    assert (Hn' : orders ticks drs !! n = Some o')
      by (rewrite Hrest; by apply lookup_app_l_Some).
    destruct (Hstart _ _ Hn') as [Hge Hside].
    rewrite Forall_lookup in Hlim. specialize (Hlim n o' Hn). cbn in Hlim.
    split; [lia|exact Hside].
  - intros i j a b Hij Ha Hb.
    assert (Ha' : orders ticks drs !! i = Some a)
      by (rewrite Hrest; by apply lookup_app_l_Some).
    assert (Hb' : orders ticks drs !! j = Some b)
      by (rewrite Hrest; by apply lookup_app_l_Some).
    apply orders_lookup in Ha' as (ta & _ & Hta & _ & -> & _).
    apply orders_lookup in Hb' as (tb & _ & Htb & _ & -> & _).
    pose proof (market_ticks_gap market_open walks i j ta tb Hfreq Hij Hta Htb).
    lia.
Qed.

Lemma generate_csv_stops_witness :
  ∃ ticks rows,
    market 0 (replicate 3652 (0, 0, 0)) = Ok ticks
    ∧ generate_csv 0 (orders ticks (replicate 3652 (Draws 0 0 0 0)))
      = (rows, true)
    ∧ (length rows <= 3651)%nat
    ∧ rows `prefix_of` orders ticks (replicate 3652 (Draws 0 0 0 0))
    ∧ Forall (λ o, (0 <= o_t o <= 0 + SIM_LENGTH)%Z
                   ∧ (o_side o = "buy"%string ∨ o_side o = "sell"%string))
        rows
    ∧ ∀ i j a b, (i <= j)%nat → rows !! i = Some a → rows !! j = Some b →
        (o_t a <= o_t b)%Z.
Proof.
  apply (generate_csv_stops 0 (replicate 3652 (0, 0, 0))
           (replicate 3652 (Draws 0 0 0 0))).
  - rewrite !length_replicate. reflexivity.
  - rewrite length_replicate. lia.
Defined.

End GenMore.

(** ** Query parameters *)

Module HttpFacts.

Import Stdlib.Strings.Ascii.
Import Http.

Lemma free_of_app (c : Ascii.ascii) (a b : string) :
  free_of c (a +:+ b) ↔ free_of c a ∧ free_of c b.
Proof.
  induction a as [|c' a IH].
  - change ("" +:+ b) with b. cbn. tauto.
  - change (String c' a +:+ b) with (String c' (a +:+ b)).
    cbn [free_of]. rewrite IH. tauto.
Qed.

(** A string without the separator is not split. *)
Lemma split_free (sep : Ascii.ascii) (s : string) :
  free_of sep s → split sep s = [s].
Proof.
  induction s as [|c s IH]; cbn; [done|]. intros [Hc Hs].
  destruct (Ascii.eqb_spec c sep); [done|]. by rewrite IH.
Qed.

(** The first piece ends at the first separator. *)
Lemma split_app (sep : Ascii.ascii) (a b : string) :
  free_of sep a → split sep (a +:+ String sep b) = a :: split sep b.
Proof.
  induction a as [|c a IH].
  - intros _. change ("" +:+ String sep b) with (String sep b).
    cbn [split]. by rewrite Ascii.eqb_refl.
  - intros [Hc Ha].
    change (String c a +:+ String sep b) with (String c (a +:+ String sep b)).
    cbn [split]. destruct (Ascii.eqb_spec c sep); [done|]. by rewrite IH.
Qed.

(** The pieces of a string hold no character the string does not hold. *)
Lemma split_pieces_free (c sep : Ascii.ascii) (s : string) :
  free_of c s → Forall (free_of c) (split sep s).
Proof.
  induction s as [|c' s IH]; cbn.
  - intros _. by repeat constructor.
  - intros [Hc Hs]. specialize (IH Hs).
    destruct (Ascii.eqb c' sep).
    + constructor; [done|exact IH].
    + destruct (split sep s) as [|h t]; [by repeat constructor|].
      apply Forall_cons in IH as [Hh Ht]. by repeat constructor.
Qed.

Lemma split_nonempty (sep : Ascii.ascii) (s : string) : split sep s ≠ [].
Proof.
  destruct s as [|c s]; cbn; [done|].
  destruct (Ascii.eqb c sep); [done|]. by destruct (split sep s).
Qed.

Lemma free_of_concat (c sep : Ascii.ascii) (items : list string) :
  sep ≠ c → Forall (free_of c) items →
  free_of c (String.concat (String sep "") items).
Proof.
  intros Hsep. induction 1 as [|x items Hx Hall IH]; cbn; [done|].
  destruct items as [|y items]; [done|].
  apply free_of_app. split; [done|]. cbn. split; [done|]. exact IH.
Qed.

(** Splitting undoes joining, for pieces without the separator. *)
Lemma split_concat (sep : Ascii.ascii) (items : list string) :
  items ≠ [] → Forall (free_of sep) items →
  split sep (String.concat (String sep "") items) = items.
Proof.
  intros Hne Hall. induction Hall as [|x items Hx Hall IH]; [done|].
  destruct items as [|y items].
  - cbn. by apply split_free.
  - change (String.concat (String sep "") (x :: y :: items))
      with (x +:+ String sep (String.concat (String sep "") (y :: items))).
    rewrite split_app by done. f_equal. by apply IH.
Qed.

Lemma dict_of_pairs (params : list (string * string))
    (d : gmap string string) :
  dict_of ((λ kv : string * string, [kv.1; kv.2]) <$> params) d
    = Some (foldl (λ d kv, <[kv.1 := kv.2]> d) d params).
Proof.
  revert d. induction params as [|[k v] params IH]; intros d; [done|].
  cbn. apply IH.
Qed.

(** X15.  For a path without ['?'] [read_params] returns [None]. *)
Theorem read_params_no_query (path : string) :
  free_of "?" path → read_params path = Returned None.
Proof. intros H. unfold read_params. by rewrite split_free. Qed.

Lemma read_params_no_query_witness :
  read_params "/query" = Returned None.
Proof. apply read_params_no_query. cbn. repeat split; discriminate. Defined.

(** X16.  [read_params] reads back a query string: for a path without
    ['?'] and a list of parameters that is not empty, whose keys and values
    hold none of ['?'], ['&'] and ['='], it returns the dictionary of the
    parameters, a later parameter replacing an earlier one of the same
    key. *)
Theorem read_params_query_string (path : string)
    (params : list (string * string)) :
  free_of "?" path →
  params ≠ [] →
  Forall (λ kv, plain kv.1 ∧ plain kv.2) params →
  read_params (path +:+ String "?" (query_string params))
    = Returned (Some (foldl (λ d kv, <[kv.1 := kv.2]> d) ∅ params)).
Proof.
  intros Hpath Hne Hplain. unfold read_params, query_string.
  rewrite split_app by done.
  rewrite split_free.
  2:{ apply free_of_concat; [discriminate|].
      apply Forall_fmap. eapply Forall_impl; [exact Hplain|].
      intros [k v] [(Hk & _ & _) (Hv & _ & _)]. cbn.
      apply free_of_app. split; [done|]. cbn. split; [discriminate|done]. }
  rewrite split_concat.
  2:{ by destruct params. }
  2:{ apply Forall_fmap. eapply Forall_impl; [exact Hplain|].
      intros [k v] [(_ & Hk & _) (_ & Hv & _)]. cbn.
      apply free_of_app. split; [done|]. cbn. split; [discriminate|done]. }
  rewrite <- list_fmap_compose.
  assert (Hitems : (split "=" ∘ (λ kv : string * string, kv.1 +:+ String "=" kv.2))
                     <$> params
                   = (λ kv : string * string, [kv.1; kv.2]) <$> params).
  { apply Forall_fmap_ext_1. eapply Forall_impl; [exact Hplain|].
    intros [k v] [(_ & _ & Hk) (_ & _ & Hv)]. cbn.
    rewrite split_app by done. by rewrite split_free. }
  rewrite Hitems, dict_of_pairs. done.
Qed.

Lemma read_params_query_string_witness :
  read_params ("/query" +:+ String "?" (query_string [("id", "7"); ("x", "a"); ("id", "9")]))
    = Returned (Some (foldl (λ d kv, <[kv.1 := kv.2]> d) ∅
                        [("id", "7"); ("x", "a"); ("id", "9")])).
Proof.
  apply read_params_query_string.
  - cbn. repeat split; discriminate.
  - discriminate.
  - repeat constructor; cbn; discriminate.
Defined.

(** X17.  A query that holds no ['='] makes [read_params] raise
    [ValueError]: its first parameter splits into one piece, and [dict]
    wants two.  This is so for the empty query of a path that ends in
    ['?']. *)
Theorem read_params_no_equals (path query : string) :
  free_of "?" path → free_of "?" query → free_of "=" query →
  read_params (path +:+ String "?" query) = ValueError.
Proof.
  intros Hpath Hq Heq. unfold read_params.
  rewrite split_app by done. rewrite split_free by done.
  pose proof (split_pieces_free "=" "&" query Heq) as Hpieces.
  pose proof (split_nonempty "&" query) as Hne.
  destruct (split "&" query) as [|h t]; [done|].
  apply Forall_cons in Hpieces as [Hh _].
  cbn [fmap list_fmap]. by rewrite split_free.
Qed.

Lemma read_params_no_equals_witness :
  read_params ("/query" +:+ String "?" "") = ValueError.
Proof.
  apply read_params_no_equals; cbn; repeat split; discriminate.
Defined.

End HttpFacts.

(** ** Pulls, exhaustion and rebuild *)

Module ServerMore.

Import Book Server BookFacts ServerFacts.
Local Open Scope Z_scope.

Section App.

Variable clock : nat -> Z.
Variable csv : list row.

(** X18.  Over rows recorded in ascending order of timestamp, two pulls in
    a row that both return hand out snapshots whose timestamps do not
    decrease, the second one taken from a row after the first. *)
Theorem current_book_monotone (stock_name : string) (sim_start : option Z)
    (rt_start : Z) (rows : list row) (book : gmap string (list entry))
    (k : nat) (s1 s2 : snapshot) (rows1 rows2 : list row)
    (book1 book2 : gmap string (list entry)) (k1 k2 : nat) :
  Sorted Z.le (r_t <$> rows) →
  current_book clock stock_name sim_start rt_start rows book k
    = (Ok s1, rows1, book1, k1) →
  current_book clock stock_name sim_start rt_start rows1 book1 k1
    = (Ok s2, rows2, book2, k2) →
  snap_t s1 <= snap_t s2 ∧ (length rows2 < length rows1 < length rows)%nat.
Proof.
  intros Hsorted H1 H2.
  apply current_book_ok_inv in H1 as (_ & sk1 & r1 & _ & -> & _ & -> & _).
  apply current_book_ok_inv in H2 as (_ & sk2 & r2 & _ & -> & _ & -> & _).
  split; [|rewrite !length_app; cbn; rewrite !length_app; cbn; lia].
  apply (Sorted_StronglySorted _) in Hsorted.
  rewrite fmap_app in Hsorted. apply StronglySorted_app_1_r in Hsorted.
  rewrite fmap_cons in Hsorted. apply StronglySorted_inv in Hsorted as [_ Hall].
  rewrite Forall_forall in Hall. apply Hall.
  rewrite fmap_app, fmap_cons. apply elem_of_app. right. apply list_elem_of_here.
Qed.

(** X19.  When the clock has caught up with every row left, a pull reads
    the generator to its end and raises [StopIteration]: every row has been
    inserted in the book and no snapshot is handed out. *)
Theorem current_book_exhausts (stock_name : string) (sim rt_start : Z)
    (rows : list row) (book : gmap string (list entry)) (k : nat) :
  valid_book book →
  Forall valid_row rows →
  (∀ i r, rows !! i = Some r → r_t r <= sim + (clock (k + i)%nat - rt_start)) →
  current_book clock stock_name (Some sim) rt_start rows book k
    = (Raise StopIteration, [], foldl (insert_row stock_name) book rows,
       (k + length rows)%nat).
Proof.
  intros Hb Hrows. revert book k Hb.
  induction Hrows as [|r rows Hr Hrows IH]; intros book k Hb Hlate.
  { cbn. by rewrite Nat.add_0_r. }
  cbn [current_book].
  destruct (order_book_next_valid r rows book stock_name Hb Hr) as (s & -> & Hs).
  unfold REALTIME, ahead_of_clock. rewrite Hs.
  pose proof (Hlate 0%nat r eq_refl) as H0. rewrite Nat.add_0_r in H0.
  destruct (Z.ltb_spec (sim + (clock k - rt_start)) (r_t r)) as [Hlt|_];
    [by apply Z.lt_nge in Hlt|].
  rewrite IH.
  - cbn [foldl length]. f_equal. lia.
  - by apply insert_row_valid.
  - intros i r' Hi. replace (S k + i)%nat with (k + S i)%nat by lia.
    by apply Hlate.
Qed.

(** *** Rebuild *)

(** [read_10_first_lines] on generators that have enough valid rows left:
    the rows read are inserted in the books they belong to. *)
Lemma read_first_lines_folds (n : nat) (a : app) :
  (n <= length (_data_1 a))%nat → (n <= length (_data_2 a))%nat →
  app_valid a →
  read_first_lines n a
    = (Ok (),
       App (foldl (insert_row "ABC") (_book_1 a) (take n (_data_1 a)))
           (foldl (insert_row "DEF") (_book_2 a) (take n (_data_2 a)))
           (drop n (_data_1 a)) (drop n (_data_2 a))
           (_rt_start a) (_sim_start a) (reads a)).
Proof.
  revert a. induction n as [|n IH]; intros [b1 b2 d1 d2 rt sim k];
    unfold app_valid; cbn [_book_1 _book_2 _data_1 _data_2 _rt_start _sim_start reads].
  { intros _ _ _. cbn. by rewrite !drop_0. }
  intros Hl1 Hl2 (Hb1 & Hb2 & Hd1 & Hd2).
  destruct d1 as [|r1 d1]; [cbn in Hl1; lia|].
  destruct d2 as [|r2 d2]; [cbn in Hl2; lia|].
  apply Forall_cons in Hd1 as [Hr1 Hd1]. apply Forall_cons in Hd2 as [Hr2 Hd2].
  cbn [read_first_lines]. unfold next_data_1.
  cbn [_data_1 _book_1 _book_2 _data_2 _rt_start _sim_start reads].
  destruct (order_book_next_valid r1 d1 b1 "ABC" Hb1 Hr1) as (s1 & -> & _).
  unfold next_data_2.
  cbn [_data_1 _book_1 _book_2 _data_2 _rt_start _sim_start reads].
  destruct (order_book_next_valid r2 d2 b2 "DEF" Hb2 Hr2) as (s2 & -> & _).
  cbn in Hl1, Hl2.
  rewrite IH; cbn [_data_1 _book_1 _book_2 _data_2 _rt_start _sim_start reads];
    [done|lia|lia|].
  repeat split; [by apply insert_row_valid..|done|done].
Qed.

(** [read_10_first_lines] on a first generator that has too few rows left:
    the generator is read to its end. *)
Lemma read_first_lines_short (n : nat) (a : app) :
  (length (_data_1 a) <= n)%nat →
  (length (_data_1 a) <= length (_data_2 a))%nat →
  app_valid a →
  _data_1 (read_first_lines n a).2 = []
  ∧ valid_book (_book_1 (read_first_lines n a).2)
  ∧ valid_book (_book_2 (read_first_lines n a).2).
Proof.
  revert a. induction n as [|n IH]; intros [b1 b2 d1 d2 rt sim k];
    unfold app_valid; cbn [_book_1 _book_2 _data_1 _data_2 _rt_start _sim_start reads];
    intros Hl1 Hl2 (Hb1 & Hb2 & Hd1 & Hd2).
  { destruct d1; [done|cbn in Hl1; lia]. }
  cbn [read_first_lines]. unfold next_data_1.
  cbn [_data_1 _book_1 _book_2 _data_2 _rt_start _sim_start reads].
  destruct d1 as [|r1 d1]; [done|].
  destruct d2 as [|r2 d2]; [cbn in Hl2; lia|].
  apply Forall_cons in Hd1 as [Hr1 Hd1]. apply Forall_cons in Hd2 as [Hr2 Hd2].
  destruct (order_book_next_valid r1 d1 b1 "ABC" Hb1 Hr1) as (s1 & -> & _).
  unfold next_data_2.
  cbn [_data_1 _book_1 _book_2 _data_2 _rt_start _sim_start reads].
  destruct (order_book_next_valid r2 d2 b2 "DEF" Hb2 Hr2) as (s2 & -> & _).
  cbn in Hl1, Hl2.
  apply IH; cbn [_data_1 _book_1 _book_2 _data_2 _rt_start _sim_start reads];
    [lia|lia|].
  repeat split; [by apply insert_row_valid..|done|done].
Qed.

Lemma initialize_data_feeds_short (a : app) :
  (length csv <= 11)%nat →
  Forall valid_row csv →
  valid_book (_book_1 a) → valid_book (_book_2 a) →
  _data_1 (initialize_data_feeds csv a) = []
  ∧ valid_book (_book_1 (initialize_data_feeds csv a))
  ∧ valid_book (_book_2 (initialize_data_feeds csv a)).
Proof.
  intros Hlen Hv Hb1 Hb2. unfold initialize_data_feeds, next_data_1.
  cbn [_data_1 _book_1 _book_2 _data_2 _rt_start _sim_start reads].
  destruct csv as [|r0 rest]; [done|].
  pose proof Hv as Hv0. apply Forall_cons in Hv0 as [Hr0 Hrest].
  destruct (order_book_next_valid r0 rest (_book_1 a) "ABC" Hb1 Hr0)
    as (s & -> & _).
  cbn [_data_1 _book_1 _book_2 _data_2 _rt_start _sim_start reads].
  unfold read_10_first_lines.
  apply read_first_lines_short;
    cbn [_data_1 _book_1 _book_2 _data_2 _rt_start _sim_start reads].
  - cbn in Hlen. lia.
  - cbn. lia.
  - repeat split; [by apply insert_row_valid|done..].
Qed.

(** A double pull on a first generator that is exhausted. *)
Lemma pull_both_exhausted (a : app) :
  _data_1 a = [] →
  pull_both clock a = (Raise StopIteration, a).
Proof.
  destruct a as [b1 b2 d1 d2 rt sim k]. cbn [_data_1]. intros ->.
  reflexivity.
Qed.

(** X20.  On a recorded source of at most 11 rows the application never
    answers: construction leaves the first generator exhausted, and every
    query finds it exhausted, rebuilds, finds it exhausted again and
    raises [StopIteration], leaving the application as it found it in this
    respect. *)
Theorem handle_query_short_source :
  (length csv <= 11)%nat →
  Forall valid_row csv →
  (_data_1 (init clock csv) = []
   ∧ valid_book (_book_1 (init clock csv))
   ∧ valid_book (_book_2 (init clock csv)))
  ∧ ∀ a, _data_1 a = [] → valid_book (_book_1 a) → valid_book (_book_2 a) →
      (handle_query clock csv a).1 = Raise StopIteration
      ∧ _data_1 (handle_query clock csv a).2 = []
      ∧ valid_book (_book_1 (handle_query clock csv a).2)
      ∧ valid_book (_book_2 (handle_query clock csv a).2).
Proof.
  intros Hlen Hv. split.
  - unfold init. apply initialize_data_feeds_short; try done;
      cbn; unfold valid_book; rewrite dom_empty_L; apply empty_subseteq.
  - intros a Hd Hb1 Hb2. unfold handle_query.
    rewrite (pull_both_exhausted a Hd).
    destruct (initialize_data_feeds_short a Hlen Hv Hb1 Hb2) as (Hd' & Hb1' & Hb2').
    rewrite (pull_both_exhausted _ Hd'). done.
Qed.

(** X21.  A rebuild does not reset the books.  From a recorded source of
    at least 11 valid rows it leaves, in the book of the first stock, the
    first 11 rows inserted on top of what the book held before, and in the
    book of the second stock the first 10 rows; the generators stand 11 and
    10 rows into the source, [_sim_start] is the first timestamp, and
    [_rt_start] and the clock are untouched. *)
Theorem initialize_data_feeds_keeps_books (a : app) (r0 : row)
    (rest : list row) :
  csv = r0 :: rest →
  (10 <= length rest)%nat →
  valid_book (_book_1 a) → valid_book (_book_2 a) →
  Forall valid_row csv →
  initialize_data_feeds csv a
    = App (foldl (insert_row "ABC") (_book_1 a) (take 11 csv))
          (foldl (insert_row "DEF") (_book_2 a) (take 10 csv))
          (drop 11 csv) (drop 10 csv) (_rt_start a) (Some (r_t r0))
          (reads a).
Proof.
  intros Hcsv Hlen Hb1 Hb2 Hv. unfold initialize_data_feeds, next_data_1.
  cbn [_data_1 _book_1 _book_2 _data_2 _rt_start _sim_start reads].
  rewrite Hcsv in *. pose proof Hv as Hv0.
  apply Forall_cons in Hv0 as [Hr0 Hrest].
  destruct (order_book_next_valid r0 rest (_book_1 a) "ABC" Hb1 Hr0)
    as (s & -> & Hs).
  cbn [_data_1 _book_1 _book_2 _data_2 _rt_start _sim_start reads].
  unfold read_10_first_lines.
  rewrite read_first_lines_folds;
    cbn [_data_1 _book_1 _book_2 _data_2 _rt_start _sim_start reads snd].
  - by rewrite Hs.
  - lia.
  - cbn. lia.
  - repeat split; [by apply insert_row_valid|done..].
Qed.

(** *** The pacing anchor *)

Lemma next_data_1_keeps (a : app) :
  _rt_start (next_data_1 a).2 = _rt_start a
  ∧ reads (next_data_1 a).2 = reads a
  ∧ _sim_start (next_data_1 a).2 = _sim_start a.
Proof.
  unfold next_data_1.
  by destruct (order_book_next (_data_1 a) (_book_1 a) "ABC") as [[r rows] b].
Qed.

Lemma next_data_2_keeps (a : app) :
  _rt_start (next_data_2 a).2 = _rt_start a
  ∧ reads (next_data_2 a).2 = reads a
  ∧ _sim_start (next_data_2 a).2 = _sim_start a.
Proof.
  unfold next_data_2.
  by destruct (order_book_next (_data_2 a) (_book_2 a) "DEF") as [[r rows] b].
Qed.

Lemma read_first_lines_keeps (n : nat) (a : app) :
  _rt_start (read_first_lines n a).2 = _rt_start a
  ∧ reads (read_first_lines n a).2 = reads a
  ∧ _sim_start (read_first_lines n a).2 = _sim_start a.
Proof.
  revert a. induction n as [|n IH]; intros a; [done|].
  cbn [read_first_lines].
  pose proof (next_data_1_keeps a) as (H1 & H1' & H1'').
  destruct (next_data_1 a) as [[s1|e1] a1]; cbn [snd] in *; [|done].
  pose proof (next_data_2_keeps a1) as (H2 & H2' & H2'').
  destruct (next_data_2 a1) as [[s2|e2] a2]; cbn [snd] in *.
  - destruct (IH a2) as (H3 & H3' & H3''). repeat split; congruence.
  - repeat split; congruence.
Qed.

Lemma initialize_data_feeds_keeps (a : app) :
  _rt_start (initialize_data_feeds csv a) = _rt_start a
  ∧ reads (initialize_data_feeds csv a) = reads a.
Proof.
  unfold initialize_data_feeds.
  set (a0 := App _ _ csv csv _ _ _).
  pose proof (next_data_1_keeps a0) as (H1 & H1' & _).
  destruct (next_data_1 a0) as [[s|e] a1]; cbn [snd] in *; [|done].
  unfold read_10_first_lines.
  pose proof (read_first_lines_keeps 10
                (App (_book_1 a1) (_book_2 a1) (_data_1 a1) (_data_2 a1)
                   (_rt_start a1) (Some (snap_t s)) (reads a1)))
    as (H2 & H2' & _).
  unfold a0 in *. cbn [_rt_start reads] in *. split; congruence.
Qed.

Lemma current_book_reads (stock_name : string) (sim_start : option Z)
    (rt_start : Z) (rows : list row) (book : gmap string (list entry))
    (k : nat) :
  (k <= (current_book clock stock_name sim_start rt_start rows book k).2)%nat.
Proof.
  revert book k. induction rows as [|r rows IH]; intros book k; cbn; [lia|].
  destruct (clear_book_kwargs (insert_row stock_name book r))
    as [[bids asks]|e]; cbn; [|lia].
  destruct (ahead_of_clock clock sim_start rt_start k (r_t r)) as [[|]|e];
    cbn; try lia.
  specialize (IH (insert_row stock_name book r) (S k)). lia.
Qed.

Lemma pull_both_keeps (a : app) :
  _rt_start (pull_both clock a).2 = _rt_start a
  ∧ _sim_start (pull_both clock a).2 = _sim_start a
  ∧ (reads a <= reads (pull_both clock a).2)%nat.
Proof.
  unfold pull_both, next_current_book_1.
  pose proof (current_book_reads "ABC" (_sim_start a) (_rt_start a)
                (_data_1 a) (_book_1 a) (reads a)) as Hk1.
  destruct (current_book clock "ABC" (_sim_start a) (_rt_start a) (_data_1 a)
              (_book_1 a) (reads a)) as [[[r1 rows1] book1] k1].
  cbn [snd] in Hk1.
  destruct r1 as [s1|e1]; [|done].
  unfold next_current_book_2.
  cbn [_data_1 _book_1 _book_2 _data_2 _rt_start _sim_start reads].
  pose proof (current_book_reads "DEF" (_sim_start a) (_rt_start a)
                (_data_2 a) (_book_2 a) k1) as Hk2.
  destruct (current_book clock "DEF" (_sim_start a) (_rt_start a) (_data_2 a)
              (_book_2 a) k1) as [[[r2 rows2] book2] k2].
  cbn [snd] in Hk2.
  destruct r2 as [s2|e2]; cbn; repeat split; lia.
Qed.

(** X22.  The wall-clock anchor [_rt_start] is set at construction and
    never again: neither a rebuild nor a query changes it, and a rebuild
    does not read the clock at all.  A query never turns the clock back. *)
Theorem handle_query_keeps_rt_start (a : app) :
  _rt_start (initialize_data_feeds csv a) = _rt_start a
  ∧ reads (initialize_data_feeds csv a) = reads a
  ∧ _rt_start (handle_query clock csv a).2 = _rt_start a
  ∧ (reads a <= reads (handle_query clock csv a).2)%nat
  ∧ _rt_start (init clock csv) = clock 0.
Proof.
  destruct (initialize_data_feeds_keeps a) as [Hrt Hk].
  split; [done|]. split; [done|].
  assert (Hq : _rt_start (handle_query clock csv a).2 = _rt_start a
               ∧ (reads a <= reads (handle_query clock csv a).2)%nat).
  { unfold handle_query.
    pose proof (pull_both_keeps a) as (H1 & _ & H1').
    destruct (pull_both clock a) as [[s|e] a1]; cbn [snd] in *; [done|].
    destruct e; try done.
    destruct (initialize_data_feeds_keeps a1) as [H2 H2'].
    pose proof (pull_both_keeps (initialize_data_feeds csv a1)) as (H3 & _ & H3').
    destruct (pull_both clock (initialize_data_feeds csv a1)) as [r a2].
    cbn [snd] in *. split; [congruence|lia]. }
  destruct Hq as [Hq1 Hq2]. repeat split; [done..|].
  unfold init.
  by destruct (initialize_data_feeds_keeps (App ∅ ∅ [] [] (clock 0) None 1)).
Qed.

End App.

Lemma current_book_monotone_witness :
  snap_t (5, Some [(101, 10, 10); (100, 10, 9)], Some [(105, 10, 10)])
    <= snap_t (9, Some [(101, 10, 10); (100, 10, 9)],
               Some [(104, 10, 10); (105, 10, 9)])
  ∧ (length (@nil row) < length [Row 9 "ABC" "sell" 104 10]
     < length [Row 1 "ABC" "buy" 100 10; Row 2 "ABC" "sell" 105 10;
               Row 5 "ABC" "buy" 101 10; Row 9 "ABC" "sell" 104 10])%nat.
Proof.
  eapply (current_book_monotone (λ _, 3) "ABC" (Some 0) 0
            [Row 1 "ABC" "buy" 100 10; Row 2 "ABC" "sell" 105 10;
             Row 5 "ABC" "buy" 101 10; Row 9 "ABC" "sell" 104 10] ∅ 0).
  - cbn. repeat first [apply Sorted_cons | apply Sorted_nil
                      | apply HdRel_cons | apply HdRel_nil | lia].
  - vm_compute. reflexivity.
  - vm_compute. reflexivity.
Defined.

Lemma current_book_exhausts_witness :
  current_book (λ _, 100) "ABC" (Some 0) 0
    [Row 1 "ABC" "buy" 100 10; Row 2 "ABC" "sell" 105 10] ∅ 0
  = (Raise StopIteration, [],
     foldl (insert_row "ABC") ∅
       [Row 1 "ABC" "buy" 100 10; Row 2 "ABC" "sell" 105 10],
     (0 + length [Row 1 "ABC" "buy" 100 10; Row 2 "ABC" "sell" 105 10])%nat).
Proof.
  apply (current_book_exhausts (λ _, 100)).
  - unfold valid_book. rewrite dom_empty_L. apply empty_subseteq.
  - apply (bool_decide_unpack _). vm_compute. reflexivity.
  - intros [|[|i]] r Hi; cbn in Hi; try discriminate;
      injection Hi as <-; cbn; lia.
Defined.

Lemma handle_query_short_source_witness :
  (_data_1 (init still_clock (take 11 sample_csv)) = []
   ∧ valid_book (_book_1 (init still_clock (take 11 sample_csv)))
   ∧ valid_book (_book_2 (init still_clock (take 11 sample_csv))))
  ∧ ∀ a, _data_1 a = [] → valid_book (_book_1 a) → valid_book (_book_2 a) →
      (handle_query still_clock (take 11 sample_csv) a).1 = Raise StopIteration
      ∧ _data_1 (handle_query still_clock (take 11 sample_csv) a).2 = []
      ∧ valid_book (_book_1 (handle_query still_clock (take 11 sample_csv) a).2)
      ∧ valid_book (_book_2 (handle_query still_clock (take 11 sample_csv) a).2).
Proof.
  apply (handle_query_short_source still_clock (take 11 sample_csv)).
  - cbn. lia.
  - apply (bool_decide_unpack _). vm_compute. reflexivity.
Defined.

Lemma initialize_data_feeds_keeps_books_witness :
  initialize_data_feeds sample_csv drained_app
    = App (foldl (insert_row "ABC") (_book_1 drained_app) (take 11 sample_csv))
          (foldl (insert_row "DEF") (_book_2 drained_app) (take 10 sample_csv))
          (drop 11 sample_csv) (drop 10 sample_csv) (_rt_start drained_app)
          (Some (r_t (Row 1 "ABC" "sell" 105 10))) (reads drained_app).
Proof.
  apply (initialize_data_feeds_keeps_books sample_csv drained_app
           (Row 1 "ABC" "sell" 105 10) (tail sample_csv)).
  - reflexivity.
  - cbn. lia.
  - apply (bool_decide_unpack _). vm_compute. reflexivity.
  - apply (bool_decide_unpack _). vm_compute. reflexivity.
  - apply (bool_decide_unpack _). vm_compute. reflexivity.
Defined.

End ServerMore.
